(** * The interior-point driver of the SAND topology optimisation program

    A shallow embedding of the optimisation driver of [SAND.cc]
    (class [SANDTopOpt<dim>]): the fraction-to-boundary rule
    [calculate_max_step_size], the exact l1 merit [calculate_exact_merit],
    the penalty update and step scaling of [find_max_step], the
    back-stepping line search [take_scaled_step], the convergence test
    [check_convergence] and the watchdog / barrier loops of [run].

    Numbers.  The program computes in C++ [double].  The embedding is
    written once over an interface [Scalar] of the operations the code
    uses and is instantiated twice:
    - [Q_scalar], exact rational arithmetic, on which the properties are
      proved that rest on what the code compares, accepts and counts
      (rounding is not modelled there; division by zero is outside this
      instance and is never relied on).  What holds only without
      rounding, a slack that stays strictly positive or a filter row
      that sums to exactly one, is not stated of the program;
    - [binary64_scalar], Rocq's primitive IEEE 754 binary64 numbers, on
      which the code is evaluated where the IEEE behaviour itself matters
      (decimal constants, division by zero, underflow).

    Finite elements.  Mesh, assembly of the Newton system, the direct
    solver and the residual assembly [calculate_test_rhs] are deal.II
    computations; they enter through the record [Collaborators]. *)

From Stdlib Require Import List Sorted Bool ZArith NArith QArith Qminmax Qabs Qpower Lia Lqa.
From Stdlib Require Import Floats Uint63.
Import ListNotations.

Set Implicit Arguments.

(** ** Block numbering (namespace [SolutionBlocks]) *)

Module SolutionBlocks.
Definition density : nat := 0.
Definition displacement : nat := 1.
Definition unfiltered_density : nat := 2.
Definition displacement_multiplier : nat := 3.
Definition unfiltered_density_multiplier : nat := 4.
Definition density_lower_slack : nat := 5.
Definition density_lower_slack_multiplier : nat := 6.
Definition density_upper_slack : nat := 7.
Definition density_upper_slack_multiplier : nat := 8.
End SolutionBlocks.

(** ** The arithmetic of [double] as an interface *)

Class Scalar (F : Type) : Type := {
  lit : Q -> F;            (* a decimal constant of the source text *)
  add : F -> F -> F;
  sub : F -> F -> F;
  mul : F -> F -> F;
  div : F -> F -> F;
  fabs : F -> F;           (* std::fabs *)
  ltb : F -> F -> bool;    (* a < b *)
  leb : F -> F -> bool     (* a <= b *)
}.

Declare Scope scalar_scope.
Delimit Scope scalar_scope with sc.
Infix "+" := add : scalar_scope.
Infix "-" := sub : scalar_scope.
Infix "*" := mul : scalar_scope.
Infix "/" := div : scalar_scope.
Infix "<?" := ltb : scalar_scope.
Infix "<=?" := leb : scalar_scope.

Section Driver.

Context {F : Type} `{Scalar F}.
Local Open Scope scalar_scope.

Definition zero : F := lit 0%Q.
Definition one : F := lit 1%Q.

(** *** [Vector<double>] and [BlockVector<double>] *)

Definition Vector : Type := list F.
Definition BlockVector : Type := list Vector.

(** [v.block(i)]; the program only uses the nine indices of
    [SolutionBlocks] on vectors that have nine blocks. *)
Definition block (v : BlockVector) (i : nat) : Vector := nth i v [].

(** [a * v] *)
Definition scale (a : F) (v : Vector) : Vector := map (mul a) v.

(** [v + w]; deal.II requires equal sizes, the model stops at the
    shorter operand. *)
Fixpoint vadd (v w : Vector) : Vector :=
  match v, w with
  | x :: v', y :: w' => (x + y) :: vadd v' w'
  | _, _ => []
  end.

(** [v * w], the scalar product *)
Fixpoint dot (v w : Vector) : F :=
  match v, w with
  | x :: v', y :: w' => x * y + dot v' w'
  | _, _ => zero
  end.

Definition bscale (a : F) (v : BlockVector) : BlockVector := map (scale a) v.

Fixpoint badd (v w : BlockVector) : BlockVector :=
  match v, w with
  | x :: v', y :: w' => vadd x y :: badd v' w'
  | _, _ => []
  end.

(** [Vector::is_non_negative()]: no entry is negative. *)
Definition is_non_negative (v : Vector) : bool := forallb (fun x => zero <=? x) v.

(** [Vector::l1_norm()] *)
Definition l1_norm (v : Vector) : F := fold_right (fun x acc => fabs x + acc) zero v.

(** [std::max] *)
Definition fmax (a b : F) : F := if a <? b then b else a.

(** [Vector::linfty_norm()] *)
Definition linfty_norm (v : Vector) : F := fold_right (fun x acc => fmax (fabs x) acc) zero v.

(** [BlockVector::l1_norm()]: the sum over the blocks. *)
Definition bl1_norm (v : BlockVector) : F := fold_right (fun b acc => l1_norm b + acc) zero v.

(** [BlockVector::linfty_norm()]: the maximum over the blocks. *)
Definition blinfty_norm (v : BlockVector) : F :=
  fold_right (fun b acc => fmax (linfty_norm b) acc) zero v.

(** *** [calculate_max_step_size] *)

(** The first part of the function: the choice of [fraction_to_boundary]. *)
Definition fraction_to_boundary (barrier_size : F) : F :=
  let min_fraction_to_boundary := lit 0.8%Q in
  let max_fraction_to_boundary := lit 0.99999%Q in
  if min_fraction_to_boundary <? one - barrier_size then
    if one - barrier_size <? max_fraction_to_boundary
    then one - barrier_size
    else max_fraction_to_boundary
  else min_fraction_to_boundary.

(** The four loop variables of the binary search. *)
Record Bisection : Type := mkBisection {
  step_size_s_low : F;
  step_size_z_low : F;
  step_size_s_high : F;
  step_size_z_high : F
}.

Definition state_test (tau : F) (state step : BlockVector) (step_size : F) : BlockVector :=
  badd (bscale tau state) (bscale step_size step).

Definition accept_s (tau : F) (state step : BlockVector) (step_size_s : F) : bool :=
  let state_test_s := state_test tau state step step_size_s in
  is_non_negative (block state_test_s SolutionBlocks.density_lower_slack)
  && is_non_negative (block state_test_s SolutionBlocks.density_upper_slack).

Definition accept_z (tau : F) (state step : BlockVector) (step_size_z : F) : bool :=
  let state_test_z := state_test tau state step step_size_z in
  is_non_negative (block state_test_z SolutionBlocks.density_lower_slack_multiplier)
  && is_non_negative (block state_test_z SolutionBlocks.density_upper_slack_multiplier).

(** One pass through the body of [for (k = 0; k < 50; ++k)]. *)
Definition bisect (tau : F) (state step : BlockVector) (b : Bisection) : Bisection :=
  let step_size_s := (step_size_s_low b + step_size_s_high b) / lit 2%Q in
  let step_size_z := (step_size_z_low b + step_size_z_high b) / lit 2%Q in
  mkBisection
    (if accept_s tau state step step_size_s then step_size_s else step_size_s_low b)
    (if accept_z tau state step step_size_z then step_size_z else step_size_z_low b)
    (if accept_s tau state step step_size_s then step_size_s_high b else step_size_s)
    (if accept_z tau state step step_size_z then step_size_z_high b else step_size_z).

Definition bisection_start : Bisection := mkBisection zero zero one one.

Definition calculate_max_step_size (state step : BlockVector) (barrier_size : F) : F * F :=
  let tau := fraction_to_boundary barrier_size in
  let b := Nat.iter 50 (bisect tau state step) bisection_start in
  (step_size_s_low b, step_size_z_low b).

(** *** What the finite-element library and the solver provide *)

(** A block of [BlockSparseMatrix<double>], by rows; [block(i,j)]. *)
Definition BlockMatrix : Type := nat -> nat -> list Vector.

(** [M.vmult(dst, src)] *)
Definition vmult (M : list Vector) (src : Vector) : Vector :=
  map (fun row => dot row src) M.

(** A quadrature point of a face with boundary id [down_force]: the
    weight [JxW] and, for every shape function of the cell that has
    displacement components, the position of its degree of freedom in
    the displacement block and its value [fe_face_values[displacements].value(i, q)]
    (a [Tensor<1,2>]; [main] runs [SANDTopOpt<2>]). *)
Record FaceQPoint : Type := mkFaceQPoint {
  JxW : F;
  shape_values : list (nat * (F * F))
}.

Record Collaborators : Type := mkCollaborators {
  (* assemble_system(barrier_size), as a function of nonlinear_solution:
     the matrix and right-hand side it leaves in system_matrix, system_rhs *)
  assemble : BlockVector -> F -> BlockMatrix * BlockVector;
  (* SparseDirectUMFPACK followed by constraints.distribute *)
  direct_solve : BlockMatrix -> BlockVector -> BlockVector;
  (* calculate_test_rhs, a const member function *)
  calculate_test_rhs : BlockVector -> F -> BlockVector;
  (* the quadrature points met by the face loop of calculate_exact_merit *)
  down_force_qpoints : list FaceQPoint;
  (* std::pow *)
  std_pow : F -> F -> F
}.

(** The data members the optimisation functions assign. *)
Record Members : Type := mkMembers {
  penalty_multiplier : F;
  nonlinear_solution : BlockVector;
  system_matrix : BlockMatrix;
  system_rhs : BlockVector;
  linear_solution : BlockVector
}.

(** A non-const member function: it receives the members and returns
    them with its result. *)
Definition Method (A : Type) : Type := Members -> A * Members.

Definition ret {A : Type} (a : A) : Method A := fun m => (a, m).

Definition bind {A B : Type} (c : Method A) (k : A -> Method B) : Method B :=
  fun m => let (a, m') := c m in k a m'.

Definition gets {A : Type} (f : Members -> A) : Method A := fun m => (f m, m).

Notation "x <- c ;; k" := (bind c (fun x => k))
  (at level 61, c at next level, right associativity).

Variable C : Collaborators.

Definition assemble_system (barrier_size : F) : Method unit := fun m =>
  let (A, b) := assemble C (nonlinear_solution m) barrier_size in
  (tt, mkMembers (penalty_multiplier m) (nonlinear_solution m) A b (linear_solution m)).

Definition solve : Method unit := fun m =>
  (tt, mkMembers (penalty_multiplier m) (nonlinear_solution m) (system_matrix m)
         (system_rhs m) (direct_solve C (system_matrix m) (system_rhs m))).

(** *** [calculate_exact_merit] *)

(** [traction * u] for the tensor [traction] with [traction[1] = -1]. *)
Definition traction_dot (u : F * F) : F := zero * fst u + lit (-1)%Q * snd u.

(** [get_function_values] at one quadrature point. *)
Definition displacement_face_value (test_solution : BlockVector) (q : FaceQPoint) : F * F :=
  fold_left
    (fun u iv =>
       let c := nth (fst iv) (block test_solution SolutionBlocks.displacement) zero in
       (fst u + c * fst (snd iv), snd u + c * snd (snd iv)))
    (shape_values q) (zero, zero).

Definition objective_function_merit (test_solution : BlockVector) : F :=
  fold_left
    (fun acc q => acc + traction_dot (displacement_face_value test_solution q) * JxW q)
    (down_force_qpoints C) zero.

Definition calculate_exact_merit (test_solution : BlockVector) (barrier_size : F) : Method F :=
  fun m =>
  let test_rhs := calculate_test_rhs C test_solution barrier_size in
  let elasticity_constraint_merit :=
    penalty_multiplier m * l1_norm (block test_rhs SolutionBlocks.displacement_multiplier) in
  let filter_constraint_merit :=
    penalty_multiplier m * l1_norm (block test_rhs SolutionBlocks.unfiltered_density_multiplier) in
  let lower_slack_merit :=
    penalty_multiplier m * l1_norm (block test_rhs SolutionBlocks.density_lower_slack_multiplier) in
  let upper_slack_merit :=
    penalty_multiplier m * l1_norm (block test_rhs SolutionBlocks.density_upper_slack_multiplier) in
  let total_merit :=
    objective_function_merit test_solution + elasticity_constraint_merit
    + filter_constraint_merit + lower_slack_merit + upper_slack_merit in
  (total_merit, m).

(** *** [find_max_step] *)

Definition decision_variables : list nat :=
  [SolutionBlocks.density; SolutionBlocks.displacement; SolutionBlocks.unfiltered_density].

Definition equality_constraints : list nat :=
  [SolutionBlocks.displacement_multiplier; SolutionBlocks.unfiltered_density_multiplier;
   SolutionBlocks.density_lower_slack_multiplier; SolutionBlocks.density_upper_slack_multiplier].

Definition hess_part (A : BlockMatrix) (step : BlockVector) : F :=
  fold_left
    (fun h i =>
       fold_left
         (fun h' j => h' + dot (block step i) (vmult (A i j) (block step j)))
         decision_variables h)
    decision_variables zero.

Definition grad_part (rhs step : BlockVector) : F :=
  fold_left (fun g i => g - dot (block rhs i) (block step i)) decision_variables zero.

Definition constraint_norm (rhs : BlockVector) : F :=
  fold_left (fun c i => c + linfty_norm (block rhs i)) equality_constraints zero.

Definition test_penalty_multiplier (hess grad cnorm : F) : F :=
  if zero <? hess
  then (grad + lit 0.5%Q * hess) / (lit 0.05%Q * cnorm)
  else grad / (lit 0.05%Q * cnorm).

(** The assignment guarded by [test_penalty_multiplier > penalty_multiplier]. *)
Definition update_penalty_multiplier (hess grad cnorm : F) : Method unit := fun m =>
  let test := test_penalty_multiplier hess grad cnorm in
  if penalty_multiplier m <? test
  then (tt, mkMembers test (nonlinear_solution m) (system_matrix m) (system_rhs m)
              (linear_solution m))
  else (tt, m).

Definition scale_blocks (step_size_s step_size_z : F) (step : BlockVector) : BlockVector :=
  [ scale step_size_s (block step SolutionBlocks.density);
    scale step_size_s (block step SolutionBlocks.displacement);
    scale step_size_s (block step SolutionBlocks.unfiltered_density);
    scale step_size_z (block step SolutionBlocks.displacement_multiplier);
    scale step_size_z (block step SolutionBlocks.unfiltered_density_multiplier);
    scale step_size_s (block step SolutionBlocks.density_lower_slack);
    scale step_size_z (block step SolutionBlocks.density_lower_slack_multiplier);
    scale step_size_s (block step SolutionBlocks.density_upper_slack);
    scale step_size_z (block step SolutionBlocks.density_upper_slack_multiplier) ].

Definition set_nonlinear_solution (state : BlockVector) : Method unit := fun m =>
  (tt, mkMembers (penalty_multiplier m) state (system_matrix m) (system_rhs m)
         (linear_solution m)).

Definition find_max_step (state : BlockVector) (barrier_size : F) : Method BlockVector :=
  _ <- set_nonlinear_solution state ;;
  _ <- assemble_system barrier_size ;;
  _ <- solve ;;
  step <- gets linear_solution ;;
  A <- gets system_matrix ;;
  rhs <- gets system_rhs ;;
  _ <- update_penalty_multiplier (hess_part A step) (grad_part rhs step) (constraint_norm rhs) ;;
  let max_step_sizes := calculate_max_step_size state step barrier_size in
  ret (scale_blocks (fst max_step_sizes) (snd max_step_sizes) step).

(** *** [take_scaled_step] *)

(** The loop [for (k = 0; k < 10; ++k)], entered with [n] passes left. *)
Fixpoint backstep (n : nat) (state max_step : BlockVector)
    (descent_requirement barrier_size step_size : F) : Method F :=
  match n with
  | O => ret step_size
  | S n' =>
    m1 <- calculate_exact_merit (badd state (bscale (lit 0.0001%Q) max_step)) barrier_size ;;
    m0 <- calculate_exact_merit state barrier_size ;;
    let merit_derivative := (m1 - m0) / lit 0.0001%Q in
    trial <- calculate_exact_merit (badd state (bscale step_size max_step)) barrier_size ;;
    base <- calculate_exact_merit state barrier_size ;;
    if trial <? base + step_size * descent_requirement * merit_derivative
    then ret step_size
    else backstep n' state max_step descent_requirement barrier_size (step_size / lit 2%Q)
  end.

Definition take_scaled_step (state max_step : BlockVector)
    (descent_requirement barrier_size : F) : Method BlockVector :=
  step_size <- backstep 10 state max_step descent_requirement barrier_size one ;;
  ret (badd state (bscale step_size max_step)).

(** *** [check_convergence] *)

Definition check_convergence (state : BlockVector) (barrier_size : F) : Method bool :=
  fun m =>
  let convergence_condition := lit 0.01%Q (* 1e-2 *) in
  let test_rhs := calculate_test_rhs C state barrier_size in
  (if bl1_norm test_rhs <? convergence_condition * barrier_size then true else false, m).

(** *** [run]: one watchdog cycle *)

Definition max_uphill_steps : nat := 8.
Definition descent_requirement : F := lit 0.0001%Q.
Definition min_barrier_size : F := lit 0.0005%Q.

(** The variables of [run] that outlive a watchdog cycle. *)
Record Progress : Type := mkProgress {
  current_state : BlockVector;
  current_step : BlockVector;
  iteration_number : N
}.

(** The variables of one pass of the inner [while] loop. *)
Record Watchdog : Type := mkWatchdog {
  progress : Progress;
  watchdog_step : BlockVector;
  goal_merit : F;
  found_step : bool
}.

(** [for (k = 0; k < max_uphill_steps; ++k)], entered at [k] with [n]
    passes left. *)
Fixpoint uphill (n k : nat) (watchdog_state : BlockVector) (barrier_size : F)
    (w : Watchdog) : Method Watchdog :=
  match n with
  | O => ret w
  | S n' =>
    step <- find_max_step (current_state (progress w)) barrier_size ;;
    let wstep := if Nat.eqb k 0 then step else watchdog_step w in
    let state := badd (current_state (progress w)) step in
    current_merit <- calculate_exact_merit state barrier_size ;;
    m1 <- calculate_exact_merit
            (badd watchdog_state (bscale (lit 0.0001%Q) wstep)) barrier_size ;;
    m0 <- calculate_exact_merit watchdog_state barrier_size ;;
    let merit_derivative := (m1 - m0) / lit 0.0001%Q in
    base <- calculate_exact_merit watchdog_state barrier_size ;;
    let goal := base + descent_requirement * merit_derivative in
    if current_merit <? goal
    then ret (mkWatchdog
                (mkProgress state step
                   (iteration_number (progress w) + N.of_nat k + 1)%N)
                wstep goal true)
    else uphill n' (S k) watchdog_state barrier_size
           (mkWatchdog (mkProgress state step (iteration_number (progress w)))
              wstep goal (found_step w))
  end.

(** The branch [if (!found_step)]. *)
Definition backtrack (watchdog_state : BlockVector) (barrier_size : F)
    (w : Watchdog) : Method Progress :=
  let it := iteration_number (progress w) in
  step <- find_max_step (current_state (progress w)) barrier_size ;;
  stretch_state <- take_scaled_step (current_state (progress w)) step
                     descent_requirement barrier_size ;;
  merit_current <- calculate_exact_merit (current_state (progress w)) barrier_size ;;
  merit_watchdog <- calculate_exact_merit watchdog_state barrier_size ;;
  merit_stretch <- calculate_exact_merit stretch_state barrier_size ;;
  if (merit_current <? merit_watchdog) || (merit_stretch <? goal_merit w)
  then ret (mkProgress stretch_state step (it + N.of_nat max_uphill_steps + 1)%N)
  else
    if merit_watchdog <? merit_stretch
    then
      state <- take_scaled_step watchdog_state (watchdog_step w)
                 descent_requirement barrier_size ;;
      ret (mkProgress state step (it + N.of_nat max_uphill_steps + 1)%N)
    else
      stretch_step <- find_max_step stretch_state barrier_size ;;
      state <- take_scaled_step stretch_state stretch_step
                 descent_requirement barrier_size ;;
      ret (mkProgress state step (it + N.of_nat max_uphill_steps + 2)%N).

(** The body of the inner [while] loop up to [output_results]. *)
Definition watchdog_cycle (barrier_size : F) (p : Progress) : Method Progress :=
  let watchdog_state := current_state p in
  (* watchdog_step is an empty BlockVector and goal_merit is not yet
     assigned; the first pass of the loop assigns both *)
  w <- uphill max_uphill_steps 0 watchdog_state barrier_size
         (mkWatchdog p [] zero false) ;;
  if found_step w then ret (progress w)
  else backtrack watchdog_state barrier_size w.

(** *** [run]: the barrier loops *)

(** The update of [barrier_size] at the end of the outer loop body. *)
Definition shrink_barrier (barrier_size : F) : F :=
  let barrier_size_multiplier := lit 0.8%Q in
  let barrier_size_exponent := lit 1.2%Q in
  if barrier_size * barrier_size_multiplier <? std_pow C barrier_size barrier_size_exponent
  then
    if barrier_size * barrier_size_multiplier <? min_barrier_size
    then min_barrier_size
    else barrier_size * barrier_size_multiplier
  else
    if std_pow C barrier_size barrier_size_exponent <? min_barrier_size
    then min_barrier_size
    else std_pow C barrier_size barrier_size_exponent.

(** [while (!converged && iteration_number < 10000)]; [None] when the
    fuel does not cover the loop. *)
Fixpoint inner_loop (fuel : nat) (barrier_size : F) (converged : bool)
    (p : Progress) (m : Members) : option (Progress * Members) :=
  if negb converged && (iteration_number p <? 10000)%N then
    match fuel with
    | O => None
    | S fuel' =>
      let (p', m') := watchdog_cycle barrier_size p m in
      let (c, m'') := check_convergence (current_state p') barrier_size m' in
      inner_loop fuel' barrier_size c p' m''
    end
  else Some (p, m).

(** What [run] leaves behind: the final variables and the values
    printed by "barrier size reduced to". *)
Record Outcome : Type := mkOutcome {
  final_barrier_size : F;
  final_progress : Progress;
  final_members : Members;
  barrier_log : list F
}.

(** The condition of the outer [while]. *)
Definition keep_going (barrier_size : F) (p : Progress) (m : Members) : bool :=
  ((lit 0.0005%Q <? barrier_size)
   || negb (fst (check_convergence (current_state p) barrier_size m)))
  && (iteration_number p <? 10000)%N.

Fixpoint outer_loop (fuel : nat) (barrier_size : F) (p : Progress) (m : Members)
    (log : list F) : option Outcome :=
  if keep_going barrier_size p m then
    match fuel with
    | O => None
    | S fuel' =>
      match inner_loop (S fuel') barrier_size false p m with
      | None => None
      | Some (p', m') =>
        let barrier_size' := shrink_barrier barrier_size in
        outer_loop fuel' barrier_size' p' m' (log ++ [barrier_size'])
      end
    end
  else Some (mkOutcome barrier_size p m log).

(** [run], after the set-up block has filled the members. *)
Definition run (fuel : nat) (m : Members) : option Outcome :=
  outer_loop fuel (lit 25%Q) (mkProgress (nonlinear_solution m) [] 0%N) m [].

End Driver.

(** ** The two instances *)

(** Exact rationals, kept in lowest terms after every operation so that
    the fifty bisection steps of [calculate_max_step_size] can be run. *)
Definition Qltb (x y : Q) : bool := negb (Qle_bool y x).
Definition radd (x y : Q) : Q := Qred (x + y).
Definition rsub (x y : Q) : Q := Qred (x - y).
Definition rmul (x y : Q) : Q := Qred (x * y).
Definition rdiv (x y : Q) : Q := Qred (x / y).

#[export] Instance Q_scalar : Scalar Q | 0 := {|
  lit := Qred;
  add := radd;
  sub := rsub;
  mul := rmul;
  div := rdiv;
  fabs := Qabs;
  ltb := Qltb;
  leb := Qle_bool
|}.

(** A decimal constant [n/d] of the source is the binary64 number nearest
    to it; IEEE division of the two integers, both exact, rounds to
    that number. *)
Definition float_of_Z (z : Z) : float :=
  match z with
  | Z.neg _ => PrimFloat.opp (PrimFloat.of_uint63 (Uint63.of_Z (Z.opp z)))
  | _ => PrimFloat.of_uint63 (Uint63.of_Z z)
  end.

Definition float_lit (q : Q) : float :=
  PrimFloat.div (float_of_Z (Qnum q)) (float_of_Z (Zpos (Qden q))).

#[export] Instance binary64_scalar : Scalar float | 10 := {|
  lit := float_lit;
  add := PrimFloat.add;
  sub := PrimFloat.sub;
  mul := PrimFloat.mul;
  div := PrimFloat.div;
  fabs := PrimFloat.abs;
  ltb := PrimFloat.ltb;
  leb := PrimFloat.leb
|}.

Arguments Vector F : clear implicits.
Arguments BlockVector F : clear implicits.
Arguments BlockMatrix F : clear implicits.
Arguments Bisection F : clear implicits.
Arguments FaceQPoint F : clear implicits.
Arguments Collaborators F : clear implicits.
Arguments Members F : clear implicits.
Arguments Method F A : clear implicits.
Arguments Progress F : clear implicits.
Arguments Watchdog F : clear implicits.
Arguments Outcome F : clear implicits.

(** ** Set-up: the initial guess and the filter matrix *)

Section Setup.

Context {F : Type} `{Scalar F}.
Local Open Scope scalar_scope.

(** *** [setup_block_system]: sizes and initial values *)

(** [v[k] = x]; the loops below stay within the vector. *)
Fixpoint set_entry (v : Vector F) (k : nat) (x : F) : Vector F :=
  match v, k with
  | [], _ => []
  | _ :: v', O => x :: v'
  | y :: v', S k' => y :: set_entry v' k' x
  end.

(** [u.block(i)[k] = x] *)
Fixpoint set_block_entry (u : BlockVector F) (i k : nat) (x : F) : BlockVector F :=
  match u, i with
  | [], _ => []
  | v :: u', O => set_entry v k x :: u'
  | v :: u', S i' => v :: set_block_entry u' i' k x
  end.

(** [u.reinit(block_sizes)]: zero blocks of the given sizes. *)
Definition reinit (block_sizes : list nat) : BlockVector F :=
  map (repeat zero) block_sizes.

(** The constants of the constructor. *)
Definition density_ratio : F := lit 0.5%Q.
Definition filter_r : F := lit 0.251%Q.

Definition block_sizes (n_p n_u : nat) : list nat :=
  [n_p; n_u; n_p; n_u; n_p; n_p; n_p; n_p; n_p].

(** The body of [for (k = 0; k < n_u; ++k)]. *)
Definition guess_displacement (u : BlockVector F) (k : nat) : BlockVector F :=
  let u := set_block_entry u SolutionBlocks.displacement k zero in
  set_block_entry u SolutionBlocks.displacement_multiplier k zero.

(** The body of [for (k = 0; k < n_p; ++k)]. *)
Definition guess_density (u : BlockVector F) (k : nat) : BlockVector F :=
  let u := set_block_entry u SolutionBlocks.density k density_ratio in
  let u := set_block_entry u SolutionBlocks.unfiltered_density k density_ratio in
  let u := set_block_entry u SolutionBlocks.unfiltered_density_multiplier k density_ratio in
  let u := set_block_entry u SolutionBlocks.density_lower_slack k density_ratio in
  let u := set_block_entry u SolutionBlocks.density_lower_slack_multiplier k (lit 50%Q) in
  let u := set_block_entry u SolutionBlocks.density_upper_slack k (one - density_ratio) in
  set_block_entry u SolutionBlocks.density_upper_slack_multiplier k (lit 50%Q).

(** [nonlinear_solution] as [setup_block_system] leaves it, for [n_p]
    density and [n_u] displacement degrees of freedom. *)
Definition initial_guess (n_p n_u : nat) : BlockVector F :=
  let u := reinit (block_sizes n_p n_u) in
  let u := fold_left guess_displacement (seq 0 n_u) u in
  fold_left guess_density (seq 0 n_p) u.


(** *** [setup_filter_matrix] *)

(** What the function reads off the triangulation: the number of active
    cells, for every cell the active cell indices of its neighbours
    across the faces that are not at the boundary, in the order of the
    faces, and the distance between two cell centres. *)
Record Mesh : Type := mkMesh {
  n_cells : nat;
  cell_neighbors : nat -> list nat;
  center_distance : nat -> nat -> F
}.

(** [std::set<unsigned int>::insert] on the ascending list of the
    elements. *)
Fixpoint set_insert (x : nat) (s : list nat) : list nat :=
  match s with
  | [] => [x]
  | y :: s' =>
    if Nat.ltb x y then x :: s
    else if Nat.eqb x y then s
    else y :: set_insert x s'
  end.

(** [std::set<unsigned int>::count] *)
Definition set_count (x : nat) (s : list nat) : bool := existsb (Nat.eqb x) s.

(** [filter_matrix.add(i, k, x)] on row [i], kept as the vector of all
    its entries. *)
Fixpoint add_entry (row : Vector F) (k : nat) (x : F) : Vector F :=
  match row, k with
  | [], _ => []
  | y :: row', O => (y + x) :: row'
  | y :: row', S k' => y :: add_entry row' k' x
  end.

(** The variables of the neighbour search for one cell. *)
Record Search : Type := mkSearch {
  cells_to_check_temp : list nat;
  neighbor_ids : list nat;
  matrix_row : Vector F
}.

Variable M : Mesh.

(** The body of the loop over the faces of [check_cell], for the
    neighbour [nb] behind a face. *)
Definition visit (i : nat) (st : Search) (nb : nat) : Search :=
  let distance := center_distance M i nb in
  if (distance <? filter_r) && negb (set_count nb (neighbor_ids st))
  then mkSearch (set_insert nb (cells_to_check_temp st))
                (set_insert nb (neighbor_ids st))
                (add_entry (matrix_row st) nb (filter_r - distance))
  else st.

(** One pass of [while (true)] up to the test of the sizes. *)
Definition sweep (i : nat) (cells_to_check : list nat) (ids : list nat)
    (row : Vector F) : Search :=
  fold_left (fun st check_cell => fold_left (visit i) (cell_neighbors M check_cell) st)
            cells_to_check (mkSearch [] ids row).

(** [while (true)]; [None] when the fuel does not cover the loop. *)
Fixpoint search (fuel : nat) (i : nat) (cells_to_check ids : list nat) (row : Vector F)
    (n_neighbors : nat) : option (Vector F) :=
  match fuel with
  | O => None
  | S fuel' =>
    let st := sweep i cells_to_check ids row in
    if Nat.eqb (length (neighbor_ids st)) n_neighbors
    then Some (matrix_row st)
    else search fuel' i (cells_to_check_temp st) (neighbor_ids st) (matrix_row st)
           (length (neighbor_ids st))
  end.

(** Row [i] after the first loop over the cells. *)
Definition filter_row (fuel : nat) (i : nat) : option (Vector F) :=
  search fuel i [i] [i] (add_entry (repeat zero (n_cells M)) i filter_r) 1.

(** The last loop, on one row: divide by the sum of the entries.  The
    entries outside the sparsity pattern of the row, which the two
    iterator loops skip, are zero in the vector. *)
Definition normalize (row : Vector F) : Vector F :=
  let denominator := fold_left add row zero in
  map (fun value => value / denominator) row.

(** Row [i] of [filter_matrix] at the end of [setup_filter_matrix]. *)
Definition filter_matrix_row (fuel : nat) (i : nat) : option (Vector F) :=
  option_map normalize (filter_row fuel i).

(** [filter_matrix] at the end of [setup_filter_matrix], row by row;
    [None] when the fuel does not cover the search of some row. *)
Definition setup_filter_matrix (fuel : nat) : option (list (Vector F)) :=
  fold_right (fun i rows =>
                match filter_matrix_row fuel i, rows with
                | Some row, Some rows' => Some (row :: rows')
                | _, _ => None
                end)
             (Some []) (seq 0 (n_cells M)).

End Setup.

Arguments Mesh F : clear implicits.
Arguments Search F : clear implicits.

(** ** Output *)

(** [output_results(j)]: the number [j] of the file [solution<j>.vtu]
    and the vector written to it. *)
Definition output_results {F : Type} (j : N) : Method F (N * BlockVector F) :=
  gets (fun m => (j, nonlinear_solution m)).

(** ** Small problems on which the code is run *)

Module Fixture.

(** A problem whose residual is the same for every state: two blocks
    with one entry 0.0005 each, of l1 norm 0.001 together. *)
Definition constant_residual {F : Type} `{Scalar F} : Collaborators F :=
  mkCollaborators
    (fun _ _ => (fun _ _ => [], []))
    (fun _ _ => [])
    (fun _ _ => [[lit 0.0005%Q]; [lit 0.0005%Q]])
    []
    (fun x _ => x).

(** A problem with two quadrature points on the loaded edge and a
    residual that repeats the state. *)
Definition loaded_edge : Collaborators Q :=
  mkCollaborators
    (fun _ _ => (fun _ _ => [], []))
    (fun _ _ => [])
    (fun state _ => state)
    [ mkFaceQPoint (1 # 2)%Q [ (0%nat, (0%Q, (3 # 4)%Q)); (1%nat, (1%Q, (1 # 4)%Q)) ];
      mkFaceQPoint (1 # 2)%Q [ (0%nat, (0%Q, (1 # 4)%Q)); (1%nat, (1%Q, (3 # 4)%Q)) ] ]
    (fun x _ => x).

(** A problem with one unknown per block.  The Newton system has the
    identity in its diagonal blocks and the right-hand side repeats the
    state; the solver returns the opposite of the right-hand side. *)
Definition diagonal : Collaborators Q :=
  mkCollaborators
    (fun state _ => (fun i j => if Nat.eqb i j then [[1%Q]] else [[0%Q]], state))
    (fun _ rhs => map (map Qopp) rhs)
    (fun state _ => state)
    []
    (fun x _ => x).

Definition uniform (x : Q) : BlockVector Q := repeat [x] 9.

(** A binary64 problem with one unknown per block whose residual lies in
    the density block only, so that [constraint_norm] is zero while
    [grad_part] and [hess_part] are not. *)
Definition feasible : Collaborators float :=
  mkCollaborators
    (fun _ _ => (fun i j => if Nat.eqb i j then [[one]] else [[zero]],
                 [one] :: repeat [zero] 8))
    (fun _ rhs => map (map PrimFloat.opp) rhs)
    (fun state _ => state)
    []
    (fun x _ => x).

(** A problem on which the watchdog makes eight uphill steps and then
    backtracks.  The only unknown that moves is the entry [x] of the
    displacement-multiplier block, by a little less than 1 per step; the
    residual has the single entry [plateau x], so that the merit is
    [plateau x]: 10 at the start, 5 just after it, 20 along the eight
    steps, [ninth] at the ninth and 6 beyond. *)
Definition plateau (ninth x : Q) : Q :=
  if Qle_bool x 0 then 10%Q
  else if Qltb x (1 # 2) then 5%Q
  else if Qltb x (17 # 2) then 20%Q
  else if Qltb x (19 # 2) then ninth
  else 6%Q.

Definition watchdog_trap (ninth : Q) : Collaborators Q :=
  mkCollaborators
    (fun _ _ => (fun _ _ => [], [[]; []; []; [1%Q]; []; [0%Q]; [0%Q]; [0%Q]; [0%Q]]))
    (fun _ rhs => rhs)
    (fun state _ =>
       [[]; []; [];
        [plateau ninth (nth 0 (block state SolutionBlocks.displacement_multiplier) 0%Q)]])
    []
    (fun x _ => x).

Definition trap_start : BlockVector Q :=
  [[]; []; []; [0%Q]; []; [1%Q]; [1%Q]; [1%Q]; [1%Q]].

(** Four cells in a row at distance 1/8 from one to the next, as along
    one line of the refined grid. *)
Definition strip : Mesh Q :=
  mkMesh 4
    (fun c => match c with
              | 0 => [1]
              | 1 => [0; 2]
              | 2 => [1; 3]
              | 3 => [2]
              | _ => []
              end)%nat
    (fun i j => Qabs (inject_Z (Z.of_nat i) - inject_Z (Z.of_nat j)) * (1 # 8))%Q.

Definition fresh {F : Type} `{Scalar F} (solution : BlockVector F) : Members F :=
  mkMembers one solution (fun _ _ => []) [] [].



End Fixture.

(** ** Sequences of calls *)

(** The values of [penalty_multiplier] after each of a sequence of calls
    [find_max_step(state, barrier_size)]. *)
Fixpoint penalties_after {F : Type} `{Scalar F} (C : Collaborators F)
    (calls : list (BlockVector F * F)) (m : Members F) : list F :=
  match calls with
  | [] => []
  | call :: rest =>
    let m' := snd (find_max_step C (fst call) (snd call) m) in
    penalty_multiplier m' :: penalties_after C rest m'
  end.

(** ** Feasibility of the slack variables *)

Definition non_negative (v : Vector Q) : Prop := Forall (fun x => (0 <= x)%Q) v.

Definition positive (v : Vector Q) : Prop := Forall (fun x => (0 < x)%Q) v.

(** The two slack blocks and the two slack-multiplier blocks are
    positive in every component. *)
Definition interior (state : BlockVector Q) : Prop :=
  positive (block state SolutionBlocks.density_lower_slack)
  /\ positive (block state SolutionBlocks.density_upper_slack)
  /\ positive (block state SolutionBlocks.density_lower_slack_multiplier)
  /\ positive (block state SolutionBlocks.density_upper_slack_multiplier).


(** ** One watchdog cycle, stage by stage *)

(** The speculative loop as [watchdog_cycle] enters it. *)
Definition speculation {F : Type} `{Scalar F} (C : Collaborators F) (barrier_size : F)
    (p : Progress F) (m : Members F) : Watchdog F * Members F :=
  uphill C max_uphill_steps 0 (current_state p) barrier_size (mkWatchdog p [] zero false) m.

(** The speculative loop cut off after [n] passes. *)
Definition speculation_passes {F : Type} `{Scalar F} (C : Collaborators F) (n : nat)
    (barrier_size : F) (p : Progress F) (m : Members F) : Watchdog F * Members F :=
  uphill C n 0 (current_state p) barrier_size (mkWatchdog p [] zero false) m.

(** [next] is not above [previous]. *)
Definition steps_down (previous next : Q) : Prop := (next <= previous)%Q.

(** What the binary search of [calculate_max_step_size] keeps true of
    one pair of bounds: they are ordered within [0, 1] and the lower one
    is accepted. *)
Definition bracket (accept : Q -> bool) (low high : Q) : Prop :=
  (0 <= low)%Q /\ (low <= high)%Q /\ (high <= 1)%Q /\ accept low = true.

(** One pair of bounds of the binary search after [n] passes: the lower
    bound is not negative, the upper one is at most 1, they are
    [(1/2)^n] apart, and the upper bound is the initial 1 or a rejected
    size. *)
Definition narrowed (n : nat) (accept : Q -> bool) (low high : Q) : Prop :=
  (0 <= low)%Q /\ (high <= 1)%Q /\ (high == low + (1 # 2) ^ Z.of_nat n)%Q
  /\ (high = one \/ accept high = false).

(** ** The neighbour search of the filter matrix *)

(** The neighbours of every cell are cells. *)
Definition well_formed {F : Type} (M : Mesh F) : Prop :=
  forall c : nat, (c < n_cells M)%nat ->
    Forall (fun nb => (nb < n_cells M)%nat) (cell_neighbors M c).

(** What the search for cell [i] keeps true of the set of neighbours
    found and of row [i]: the set has no repetition, holds cells only and
    holds [i]; every other cell in it is closer to [i] than [filter_r];
    the row has one entry per cell, [filter_r] on the diagonal,
    [filter_r - distance] for the cells of the set and 0 elsewhere. *)
Definition search_invariant (M : Mesh Q) (i : nat) (ids : list nat) (row : Vector Q) : Prop :=
  NoDup ids
  /\ Forall (fun c => (c < n_cells M)%nat) ids
  /\ In i ids
  /\ (forall j : nat, In j ids -> j <> i -> (center_distance M i j < 0.251)%Q)
  /\ length row = n_cells M
  /\ (forall j : nat, (j < n_cells M)%nat ->
        (nth j row 0
         == if Nat.eqb j i then 0.251
            else if set_count j ids then 0.251 - center_distance M i j
            else 0)%Q).

(** The cells the search for cell [i] can reach: [i] itself, and every
    neighbour across a face of a reached cell whose centre is closer
    than [filter_r] to the centre of [i]. *)
Inductive linked (M : Mesh Q) (i : nat) : nat -> Prop :=
| linked_self : linked M i i
| linked_step : forall c nb : nat,
    linked M i c -> In nb (cell_neighbors M c) ->
    (center_distance M i nb < 0.251)%Q -> linked M i nb.

(** The cells found are reached ones, and every cell found that is not
    in [cells_to_check] any more has all its near neighbours found. *)
Definition search_reach (M : Mesh Q) (i : nat) (cells_to_check ids : list nat) : Prop :=
  (forall c : nat, In c ids -> linked M i c)
  /\ (forall c nb : nat, In c ids -> ~ In c cells_to_check ->
        In nb (cell_neighbors M c) ->
        (center_distance M i nb < 0.251)%Q -> In nb ids).

(** How the variables of one pass of the search change: the sets grow,
    and what is new in the set of neighbours is in [cells_to_check_temp]. *)
Definition grows (st st' : Search Q) : Prop :=
  incl (neighbor_ids st) (neighbor_ids st')
  /\ incl (cells_to_check_temp st) (cells_to_check_temp st')
  /\ (forall x : nat, In x (neighbor_ids st') ->
        In x (neighbor_ids st) \/ In x (cells_to_check_temp st')).

(** ** The line search, test by test *)

(** The value of [calculate_exact_merit] with the members [m]. *)
Definition merit {F : Type} `{Scalar F} (C : Collaborators F) (m : Members F)
    (test_solution : BlockVector F) (barrier_size : F) : F :=
  fst (calculate_exact_merit C test_solution barrier_size m).

(** The condition of the [if] in the loop of [take_scaled_step]. *)
Definition descent_test {F : Type} `{Scalar F} (C : Collaborators F) (m : Members F)
    (state max_step : BlockVector F) (descent_requirement barrier_size step_size : F) : bool :=
  let merit_derivative :=
    div (sub (merit C m (badd state (bscale (lit 0.0001%Q) max_step)) barrier_size)
             (merit C m state barrier_size))
        (lit 0.0001%Q) in
  ltb (merit C m (badd state (bscale step_size max_step)) barrier_size)
      (add (merit C m state barrier_size)
           (mul (mul step_size descent_requirement) merit_derivative)).

(** [step_size] after [k] halvings. *)
Definition halved {F : Type} `{Scalar F} (k : nat) : F :=
  Nat.iter k (fun step_size => div step_size (lit 2%Q)) one.

(** The step sizes at which the loop of [take_scaled_step], entered with
    [n] passes left, evaluates its test. *)
Fixpoint tested_sizes {F : Type} `{Scalar F} (C : Collaborators F) (m : Members F)
    (n : nat) (state max_step : BlockVector F)
    (descent_requirement barrier_size step_size : F) : list F :=
  match n with
  | O => []
  | S n' =>
    step_size ::
    (if descent_test C m state max_step descent_requirement barrier_size step_size
     then []
     else tested_sizes C m n' state max_step descent_requirement barrier_size
            (div step_size (lit 2%Q)))
  end.

(** The numerator of [test_penalty_multiplier]. *)
Definition penalty_numerator {F : Type} `{Scalar F} (hess grad : F) : F :=
  if ltb zero hess then add grad (mul (lit 0.5%Q) hess) else grad.

(** ** The objective as a sum *)

(** [Qsum f l] is the sum of [f x] over the entries [x] of [l]. *)
Definition Qsum {A : Type} (f : A -> Q) (l : list A) : Q :=
  fold_right (fun x acc => (f x + acc)%Q) 0%Q l.

(** The work of the traction [(0, -1)] on the displacement with
    coefficients [d]: at every quadrature point, minus the vertical
    component of the displacement times the weight. *)
Definition traction_work (C : Collaborators Q) (d : Vector Q) : Q :=
  Qsum (fun q =>
          (- Qsum (fun iv => nth (fst iv) d 0 * snd (snd iv)) (shape_values q)
           * JxW q)%Q)
       (down_force_qpoints C).

(** ** Exact arithmetic: the operations of [Q_scalar] *)

Section ExactScalar.

Local Open Scope Q_scope.

Lemma Qltb_lt (x y : Q) : Qltb x y = true <-> x < y.
Proof.
  unfold Qltb. rewrite negb_true_iff. split; intro E.
  - apply Qnot_le_lt. intro L. apply Qle_bool_iff in L. congruence.
  - destruct (Qle_bool y x) eqn:B; [|reflexivity].
    apply Qle_bool_iff in B. exfalso. exact (Qlt_not_le _ _ E B).
Qed.

Lemma Qltb_ge (x y : Q) : Qltb x y = false <-> y <= x.
Proof.
  unfold Qltb. rewrite negb_false_iff. apply Qle_bool_iff.
Qed.

Lemma add_exact (x y : Q) : add x y == x + y.
Proof. apply Qred_correct. Qed.

Lemma sub_exact (x y : Q) : sub x y == x - y.
Proof. apply Qred_correct. Qed.

Lemma mul_exact (x y : Q) : mul x y == x * y.
Proof. apply Qred_correct. Qed.

Lemma div_exact (x y : Q) : div x y == x / y.
Proof. apply Qred_correct. Qed.

Lemma lit_exact (q : Q) : lit q == q.
Proof. apply Qred_correct. Qed.

Lemma ltb_exact (x y : Q) : ltb x y = true <-> x < y.
Proof. apply Qltb_lt. Qed.

Lemma ltb_exact_false (x y : Q) : ltb x y = false <-> y <= x.
Proof. apply Qltb_ge. Qed.

Lemma leb_exact (x y : Q) : leb x y = true <-> x <= y.
Proof. apply Qle_bool_iff. Qed.

End ExactScalar.

(** Rewrites every operation of [Q_scalar] into the field operation of [Q]. *)
Ltac exact_arith :=
  change (@zero Q Q_scalar) with 0%Q;
  change (@one Q Q_scalar) with 1%Q;
  repeat first [ rewrite add_exact | rewrite sub_exact | rewrite mul_exact
               | rewrite div_exact | rewrite lit_exact ].

Ltac exact_arith_in E :=
  change (@zero Q Q_scalar) with 0%Q in E;
  change (@one Q Q_scalar) with 1%Q in E;
  repeat first [ rewrite add_exact in E | rewrite sub_exact in E | rewrite mul_exact in E
               | rewrite div_exact in E | rewrite lit_exact in E ].

(** Splits on a comparison of [Q_scalar] and records its meaning as [E]. *)
Ltac compare_exact x y E :=
  destruct (@ltb Q Q_scalar x y) eqn:E;
  [ apply ltb_exact in E | apply ltb_exact_false in E ];
  exact_arith_in E.

Section FractionToBoundary.

Local Open Scope Q_scope.

Lemma fraction_to_boundary_cases (barrier_size : Q) :
  (0.8 < 1 - barrier_size -> 1 - barrier_size < 0.99999 ->
     fraction_to_boundary barrier_size == 1 - barrier_size)
  /\ (0.8 < 1 - barrier_size -> 0.99999 <= 1 - barrier_size ->
     fraction_to_boundary barrier_size == 0.99999)
  /\ (1 - barrier_size <= 0.8 -> fraction_to_boundary barrier_size == 0.8).
Proof.
  unfold fraction_to_boundary.
  compare_exact (lit 0.8) (sub one barrier_size) E1.
  - compare_exact (sub one barrier_size) (lit 0.99999) E2;
      repeat split; intros; exact_arith; try reflexivity; lra.
  - repeat split; intros; exact_arith; try reflexivity; lra.
Qed.

Lemma fraction_to_boundary_range (barrier_size : Q) :
  0.8 <= fraction_to_boundary barrier_size <= 0.99999.
Proof.
  destruct (fraction_to_boundary_cases barrier_size) as (A & B & D).
  destruct (Qlt_le_dec 0.8 (1 - barrier_size)) as [L|L].
  - destruct (Qlt_le_dec (1 - barrier_size) 0.99999) as [L'|L'].
    + rewrite (A L L'). lra.
    + rewrite (B L L'). lra.
  - rewrite (D L). lra.
Qed.

(** C6: [calculate_max_step_size] takes
    [fraction_to_boundary = max(0.8, min(1 - barrier_size, 0.99999))];
    a barrier size of 25 gives 0.8, 0.1 gives 0.9 and 0.0005 gives
    0.9995, in exact arithmetic and in binary64 alike. *)
Theorem fraction_to_boundary_clamp :
  (forall barrier_size : Q,
      fraction_to_boundary barrier_size
      == Qmax 0.8 (Qmin (1 - barrier_size) 0.99999))
  /\ fraction_to_boundary (F:=Q) 25 == 0.8
  /\ fraction_to_boundary (F:=Q) 0.1 == 0.9
  /\ fraction_to_boundary (F:=Q) 0.0005 == 0.9995
  /\ fraction_to_boundary (F:=float) (lit 25) = lit 0.8
  /\ fraction_to_boundary (F:=float) (lit 0.1) = lit 0.9
  /\ fraction_to_boundary (F:=float) (lit 0.0005) = lit 0.9995.
Proof.
  split; [| repeat split; vm_compute; reflexivity].
  intro b. destruct (fraction_to_boundary_cases b) as (A & B & D).
  destruct (Qlt_le_dec 0.8 (1 - b)) as [L|L].
  - destruct (Qlt_le_dec (1 - b) 0.99999) as [L'|L'].
    + rewrite (A L L'). rewrite (Q.min_l (1 - b) 0.99999) by lra.
      rewrite Q.max_r by lra. reflexivity.
    + rewrite (B L L'). rewrite (Q.min_r (1 - b) 0.99999) by lra.
      rewrite Q.max_r by lra. reflexivity.
  - rewrite (D L). rewrite (Q.min_l (1 - b) 0.99999) by lra.
    rewrite Q.max_l by lra. reflexivity.
Qed.

End FractionToBoundary.

Section Convergence.

Local Open Scope Q_scope.

Variable C : Collaborators Q.

Lemma check_convergence_true (state : BlockVector Q) (barrier_size : Q) (m : Members Q) :
  fst (check_convergence C state barrier_size m) = true
  <-> bl1_norm (calculate_test_rhs C state barrier_size) < 0.01 * barrier_size.
Proof.
  unfold check_convergence. cbn [fst].
  compare_exact (bl1_norm (calculate_test_rhs C state barrier_size))
                (mul (lit 0.01) barrier_size) E.
  - split; [intros _; exact E | reflexivity].
  - split; [discriminate | intro L; lra].
Qed.

(** C7: [check_convergence] answers true exactly when the l1 norm of
    [calculate_test_rhs(state, barrier_size)] is below
    [1e-2 * barrier_size], and returns the members as it received them;
    a residual of l1 norm 0.001 passes for barrier size 0.2 and fails
    for 0.05, in exact arithmetic and, on the constant residual of
    [Fixture], in binary64. *)
Theorem check_convergence_spec (state : BlockVector Q) (barrier_size : Q) (m : Members Q) :
  (fst (check_convergence C state barrier_size m) = true
   <-> bl1_norm (calculate_test_rhs C state barrier_size) < 0.01 * barrier_size)
  /\ snd (check_convergence C state barrier_size m) = m
  /\ (bl1_norm (calculate_test_rhs C state 0.2) == 0.001 ->
      fst (check_convergence C state 0.2 m) = true)
  /\ (bl1_norm (calculate_test_rhs C state 0.05) == 0.001 ->
      fst (check_convergence C state 0.05 m) = false)
  /\ (forall (s : BlockVector float) (mf : Members float),
        check_convergence Fixture.constant_residual s (lit 0.2) mf = (true, mf)
        /\ check_convergence Fixture.constant_residual s (lit 0.05) mf = (false, mf)).
Proof.
  split; [apply check_convergence_true|].
  split; [reflexivity|].
  split; [|split].
  - intro E. apply check_convergence_true. rewrite E. lra.
  - intro E. destruct (fst (check_convergence C state 0.05 m)) eqn:B; [|reflexivity].
    apply check_convergence_true in B. rewrite E in B. lra.
  - intros s mf. split; vm_compute; reflexivity.
Qed.

End Convergence.

Lemma check_convergence_spec_witness :
  fst (check_convergence Fixture.constant_residual [] 0.2%Q (Fixture.fresh [])) = true
  /\ fst (check_convergence Fixture.constant_residual [] 0.05%Q (Fixture.fresh [])) = false.
Proof.
  destruct (check_convergence_spec Fixture.constant_residual [] 0.2%Q (Fixture.fresh []))
    as (_ & _ & T & F & _).
  split; [apply T | apply F]; vm_compute; reflexivity.
Defined.

Section ExactVectors.

Local Open Scope Q_scope.

Lemma Qsum_ext (A : Type) (f g : A -> Q) (l : list A) :
  (forall x, f x == g x) -> Qsum f l == Qsum g l.
Proof.
  intro E. induction l as [|x l IH]; simpl; [reflexivity|].
  rewrite IH, (E x). reflexivity.
Qed.

Lemma Qsum_linear (A : Type) (a : Q) (f g : A -> Q) (l : list A) :
  Qsum (fun x => a * f x + g x) l == a * Qsum f l + Qsum g l.
Proof.
  induction l as [|x l IH]; simpl; [ring|]. rewrite IH. ring.
Qed.

Lemma nth_vadd_scale (a : Q) (x y : Vector Q) (i : nat) :
  length x = length y ->
  nth i (vadd (scale a x) y) 0 == a * nth i x 0 + nth i y 0.
Proof.
  revert y i. induction x as [|u x IH]; intros [|v y] i L; simpl in L; try discriminate.
  - destruct i; simpl; ring.
  - destruct i; simpl.
    + exact_arith. reflexivity.
    + apply IH. congruence.
Qed.

End ExactVectors.

Section Merit.

Local Open Scope Q_scope.

Variable C : Collaborators Q.

Lemma displacement_face_value_acc (test_solution : BlockVector Q)
    (l : list (nat * (Q * Q))) (acc : Q * Q) :
  let d := block test_solution SolutionBlocks.displacement in
  let f := fun (u : Q * Q) (iv : nat * (Q * Q)) =>
             (add (fst u) (mul (nth (fst iv) d zero) (fst (snd iv))),
              add (snd u) (mul (nth (fst iv) d zero) (snd (snd iv)))) in
  snd (fold_left f l acc)
  == snd acc + Qsum (fun iv => nth (fst iv) d 0 * snd (snd iv)) l.
Proof.
  intros d f. revert acc. induction l as [|iv l IH]; intro acc; simpl.
  - ring.
  - rewrite IH. unfold f. cbn [snd]. exact_arith. ring.
Qed.

Lemma objective_acc (test_solution : BlockVector Q) (l : list (FaceQPoint Q)) (acc : Q) :
  fold_left
    (fun a q => add a (mul (traction_dot (displacement_face_value test_solution q)) (JxW q)))
    l acc
  == acc + Qsum (fun q =>
                   - Qsum (fun iv => nth (fst iv)
                                       (block test_solution SolutionBlocks.displacement) 0
                                     * snd (snd iv)) (shape_values q)
                   * JxW q) l.
Proof.
  revert acc. induction l as [|q l IH]; intro acc; simpl.
  - ring.
  - rewrite IH. exact_arith. unfold traction_dot. exact_arith.
    unfold displacement_face_value.
    rewrite (displacement_face_value_acc test_solution (shape_values q) (zero, zero)).
    cbn [snd]. exact_arith. ring.
Qed.

Lemma objective_is_traction_work (test_solution : BlockVector Q) :
  objective_function_merit C test_solution
  == traction_work C (block test_solution SolutionBlocks.displacement).
Proof.
  unfold objective_function_merit, traction_work.
  rewrite objective_acc. exact_arith. ring.
Qed.

Lemma traction_work_linear (a : Q) (x y : Vector Q) :
  length x = length y ->
  traction_work C (vadd (scale a x) y) == a * traction_work C x + traction_work C y.
Proof.
  intro L. unfold traction_work.
  rewrite <- Qsum_linear. apply Qsum_ext. intro q.
  rewrite (Qsum_ext _ (fun iv => a * (nth (fst iv) x 0 * snd (snd iv))
                                 + nth (fst iv) y 0 * snd (snd iv))).
  - rewrite Qsum_linear. ring.
  - intro iv. rewrite (nth_vadd_scale a x y (fst iv) L). ring.
Qed.

(** C3: [calculate_exact_merit] returns the objective plus
    [penalty_multiplier] times the sum of the l1 norms of the
    displacement-multiplier, unfiltered-density-multiplier and the two
    slack-multiplier blocks of [calculate_test_rhs(test_solution, barrier_size)];
    the objective is the work of the boundary traction, a linear
    functional of the displacement block of [test_solution]; the
    members are left as they were. *)
Theorem calculate_exact_merit_spec (test_solution : BlockVector Q) (barrier_size : Q)
    (m : Members Q) :
  let test_rhs := calculate_test_rhs C test_solution barrier_size in
  fst (calculate_exact_merit C test_solution barrier_size m)
  == objective_function_merit C test_solution
     + penalty_multiplier m
       * (l1_norm (block test_rhs SolutionBlocks.displacement_multiplier)
          + l1_norm (block test_rhs SolutionBlocks.unfiltered_density_multiplier)
          + l1_norm (block test_rhs SolutionBlocks.density_lower_slack_multiplier)
          + l1_norm (block test_rhs SolutionBlocks.density_upper_slack_multiplier))
  /\ snd (calculate_exact_merit C test_solution barrier_size m) = m
  /\ objective_function_merit C test_solution
     == traction_work C (block test_solution SolutionBlocks.displacement)
  /\ (forall (a : Q) (x y : Vector Q),
        length x = length y ->
        traction_work C (vadd (scale a x) y)
        == a * traction_work C x + traction_work C y).
Proof.
  intro test_rhs. split; [|split; [reflexivity|split]].
  - unfold calculate_exact_merit. cbn [fst]. fold test_rhs. exact_arith. ring.
  - apply objective_is_traction_work.
  - apply traction_work_linear.
Qed.

End Merit.

Lemma calculate_exact_merit_spec_witness :
  traction_work Fixture.loaded_edge (vadd (scale 2%Q [1%Q; 3%Q]) [5%Q; (-1)%Q])
  == (2 * traction_work Fixture.loaded_edge [1%Q; 3%Q]
      + traction_work Fixture.loaded_edge [5%Q; (-1)%Q])%Q.
Proof.
  destruct (calculate_exact_merit_spec Fixture.loaded_edge [] 1%Q (Fixture.fresh []))
    as (_ & _ & _ & L).
  apply (L 2%Q [1%Q; 3%Q] [5%Q; (-1)%Q]). reflexivity.
Defined.

Section FindMaxStep.

Context {F : Type} `{Scalar F}.

Variable C : Collaborators F.

(** [find_max_step] in one piece: the system is assembled at [state]
    and solved, the penalty is updated, the step is scaled. *)
Lemma find_max_step_unfold (state : BlockVector F) (barrier_size : F) (m : Members F) :
  let A := fst (assemble C state barrier_size) in
  let rhs := snd (assemble C state barrier_size) in
  let step := direct_solve C A rhs in
  let test := test_penalty_multiplier (hess_part A step) (grad_part rhs step)
                (constraint_norm rhs) in
  let sizes := calculate_max_step_size state step barrier_size in
  find_max_step C state barrier_size m
  = (scale_blocks (fst sizes) (snd sizes) step,
     mkMembers (if ltb (penalty_multiplier m) test then test else penalty_multiplier m)
       state A rhs step).
Proof.
  intros A rhs step test sizes.
  unfold find_max_step, bind, set_nonlinear_solution, assemble_system, solve, gets, ret,
    update_penalty_multiplier.
  cbn [nonlinear_solution penalty_multiplier system_matrix system_rhs linear_solution].
  subst sizes test step A rhs. destruct (assemble C state barrier_size) as [A rhs].
  cbn [fst snd penalty_multiplier nonlinear_solution system_matrix system_rhs
       linear_solution].
  destruct (ltb (penalty_multiplier m) _); reflexivity.
Qed.

End FindMaxStep.

Section Penalty.

Local Open Scope Q_scope.

Variable C : Collaborators Q.

Lemma penalty_step (state : BlockVector Q) (barrier_size : Q) (m : Members Q) :
  penalty_multiplier m
  <= penalty_multiplier (snd (find_max_step C state barrier_size m)).
Proof.
  rewrite find_max_step_unfold. cbn [snd penalty_multiplier].
  match goal with |- context [ltb ?a ?b] => compare_exact a b E end.
  - apply Qlt_le_weak. exact E.
  - apply Qle_refl.
Qed.

Lemma penalties_after_sorted (calls : list (BlockVector Q * Q)) (m : Members Q) :
  Sorted Qle (penalty_multiplier m :: penalties_after C calls m).
Proof.
  revert m. induction calls as [|call rest IH]; intro m; simpl.
  - repeat constructor.
  - constructor; [apply IH|]. constructor. apply penalty_step.
Qed.

(** C4: the penalty update of [find_max_step] forms
    [(grad_part + 0.5 * hess_part) / (0.05 * constraint_norm)] when
    [hess_part > 0] and [grad_part / (0.05 * constraint_norm)]
    otherwise, and assigns it to [penalty_multiplier] only when it is
    larger; over every sequence of calls with non-zero
    [constraint_norm] the values of [penalty_multiplier] never
    decrease. *)
Theorem penalty_multiplier_ratchet :
  (forall hess grad cnorm : Q,
      ~ cnorm == 0 ->
      (0 < hess ->
       test_penalty_multiplier hess grad cnorm == (grad + 0.5 * hess) / (0.05 * cnorm))
      /\ (hess <= 0 ->
          test_penalty_multiplier hess grad cnorm == grad / (0.05 * cnorm)))
  /\ (forall (state : BlockVector Q) (barrier_size : Q) (m : Members Q),
        let A := fst (assemble C state barrier_size) in
        let rhs := snd (assemble C state barrier_size) in
        let step := direct_solve C A rhs in
        let test := test_penalty_multiplier (hess_part A step) (grad_part rhs step)
                      (constraint_norm rhs) in
        let m' := snd (find_max_step C state barrier_size m) in
        (penalty_multiplier m < test -> penalty_multiplier m' = test)
        /\ (test <= penalty_multiplier m -> penalty_multiplier m' = penalty_multiplier m))
  /\ (forall (calls : list (BlockVector Q * Q)) (m : Members Q),
        Forall (fun call =>
                  ~ constraint_norm (snd (assemble C (fst call) (snd call))) == 0) calls ->
        StronglySorted Qle (penalty_multiplier m :: penalties_after C calls m)).
Proof.
  split; [|split].
  - intros hess grad cnorm N. unfold test_penalty_multiplier.
    compare_exact (@zero Q Q_scalar) hess E; split; intro L;
      try (exfalso; lra); exact_arith; reflexivity.
  - intros state barrier_size m A rhs step test m'. subst m'.
    rewrite find_max_step_unfold. cbn [snd penalty_multiplier].
    fold A. fold rhs. fold step. fold test.
    compare_exact (penalty_multiplier m) test E; split; intro L;
      try reflexivity; exfalso; lra.
  - intros calls m _. apply Sorted_StronglySorted.
    + intros x y z. apply Qle_trans.
    + apply penalties_after_sorted.
Qed.

End Penalty.

Lemma penalty_multiplier_ratchet_witness :
  test_penalty_multiplier 2%Q 3%Q 4%Q == ((3 + 0.5 * 2) / (0.05 * 4))%Q
  /\ StronglySorted Qle
       (penalty_multiplier (Fixture.fresh (Fixture.uniform 1%Q))
        :: penalties_after Fixture.diagonal
             [(Fixture.uniform 1%Q, 25%Q); (Fixture.uniform 0.5%Q, 20%Q);
              (Fixture.uniform 2%Q, 20%Q)]
             (Fixture.fresh (Fixture.uniform 1%Q))).
Proof.
  destruct (penalty_multiplier_ratchet Fixture.diagonal) as (T & _ & R).
  split.
  - apply (T 2%Q 3%Q 4%Q); [intro E; discriminate E | reflexivity].
  - apply (R [(Fixture.uniform 1%Q, 25%Q); (Fixture.uniform 0.5%Q, 20%Q);
              (Fixture.uniform 2%Q, 20%Q)]
             (Fixture.fresh (Fixture.uniform 1%Q))).
    repeat constructor; intro E; discriminate E.
Defined.

(** ** Binary64: the penalty update when [constraint_norm] is zero *)

Section ZeroConstraintNorm.

Local Open Scope float_scope.

Lemma div_positive_by_zero (x : float) : (0 <? x) = true -> x / 0 = infinity.
Proof.
  intro L. rewrite FloatAxioms.ltb_spec in L. apply Prim2SF_inj. rewrite FloatAxioms.div_spec.
  change (Prim2SF 0) with (S754_zero false) in *.
  change (Prim2SF infinity) with (S754_infinity false).
  destruct (Prim2SF x) as [sx|sx| |sx mx ex]; cbn in L |- *; try discriminate;
    destruct sx; try discriminate; reflexivity.
Qed.

Lemma div_other_by_zero (x p : float) : (0 <? x) = false -> (p <? x / 0) = false.
Proof.
  intro L. rewrite FloatAxioms.ltb_spec in L. rewrite FloatAxioms.ltb_spec, FloatAxioms.div_spec.
  change (Prim2SF 0) with (S754_zero false) in *.
  destruct (Prim2SF x) as [sx|sx| |sx mx ex]; cbn in L |- *;
    try (destruct sx; try discriminate);
    destruct (Prim2SF p) as [sp|sp| |sp mp ep]; cbn; try reflexivity;
    destruct sp; reflexivity.
Qed.

Lemma test_penalty_multiplier_zero (hess grad : float) :
  test_penalty_multiplier hess grad zero = penalty_numerator hess grad / 0.
Proof.
  unfold test_penalty_multiplier, penalty_numerator.
  change (mul (lit 0.05%Q) (@zero float _)) with 0.
  destruct (ltb zero hess); reflexivity.
Qed.

Lemma update_penalty_multiplier_zero (hess grad : float) (m : Members float) :
  penalty_multiplier (snd (update_penalty_multiplier hess grad zero m))
  = if (0 <? penalty_numerator hess grad) && (penalty_multiplier m <? infinity)
    then infinity else penalty_multiplier m.
Proof.
  unfold update_penalty_multiplier. rewrite test_penalty_multiplier_zero.
  cbn [ltb binary64_scalar].
  destruct (0 <? penalty_numerator hess grad) eqn:L.
  - rewrite (div_positive_by_zero L). cbn [andb].
    destruct (penalty_multiplier m <? infinity); reflexivity.
  - rewrite (div_other_by_zero (penalty_multiplier m) L). reflexivity.
Qed.

(** C9, as the code has it: [find_max_step] has no test on
    [constraint_norm].  When it is zero the quotient is formed all the
    same, by binary64 division by zero, and no error is raised: the call
    returns.  [penalty_multiplier] is left unchanged when the numerator is
    not positive (the quotient is then minus infinity or not a number)
    and is set to plus infinity when the numerator is positive and
    [penalty_multiplier] is below plus infinity. *)
Theorem find_max_step_zero_constraint_norm (C : Collaborators float)
    (state : BlockVector float) (barrier_size : float) (m : Members float) :
  let A := fst (assemble C state barrier_size) in
  let rhs := snd (assemble C state barrier_size) in
  let step := direct_solve C A rhs in
  constraint_norm rhs = zero ->
  exists (max_step : BlockVector float) (m' : Members float),
    find_max_step C state barrier_size m = (max_step, m')
    /\ penalty_multiplier m'
       = if (0 <? penalty_numerator (hess_part A step) (grad_part rhs step))
            && (penalty_multiplier m <? infinity)
         then infinity else penalty_multiplier m.
Proof.
  intros A rhs step Z.
  rewrite find_max_step_unfold. fold A. fold rhs. fold step.
  eexists. eexists. split; [reflexivity|].
  cbn [penalty_multiplier]. rewrite Z.
  pose proof (update_penalty_multiplier_zero (hess_part A step) (grad_part rhs step) m) as U.
  unfold update_penalty_multiplier in U.
  destruct (ltb (penalty_multiplier m)
              (test_penalty_multiplier (hess_part A step) (grad_part rhs step) zero));
    exact U.
Qed.

End ZeroConstraintNorm.

Lemma find_max_step_zero_constraint_norm_witness :
  exists (max_step : BlockVector float) (m' : Members float),
    find_max_step Fixture.feasible (repeat [one] 9) (lit 25%Q)
      (Fixture.fresh (repeat [one] 9)) = (max_step, m')
    /\ penalty_multiplier m' = infinity.
Proof.
  destruct (find_max_step_zero_constraint_norm Fixture.feasible (repeat [one] 9) (lit 25%Q)
              (Fixture.fresh (repeat [one] 9))) as (max_step & m' & E & P).
  - vm_compute. reflexivity.
  - exists max_step, m'. split; [exact E|]. rewrite P. vm_compute. reflexivity.
Defined.

(** The claim C9 as it is written fails on the problem [Fixture.feasible]:
    [constraint_norm] is zero, and the call raises [penalty_multiplier]
    from 1 to plus infinity. *)
Lemma zero_constraint_norm_not_skipped :
  let state := repeat [one (F:=float)] 9 in
  let m := Fixture.fresh state in
  let m' := snd (find_max_step Fixture.feasible state (lit 25%Q) m) in
  constraint_norm (snd (assemble Fixture.feasible state (lit 25%Q))) = zero
  /\ penalty_multiplier m = one
  /\ penalty_multiplier m' = infinity
  /\ penalty_multiplier m' <> penalty_multiplier m.
Proof.
  cbv zeta. repeat split; try (vm_compute; reflexivity).
  intro E. apply (f_equal (fun x => PrimFloat.ltb x infinity)) in E.
  vm_compute in E. discriminate E.
Qed.

(** ** [take_scaled_step] *)

Section LineSearch.

Context {F : Type} `{Scalar F}.

Variable C : Collaborators F.

Lemma backstep_unfold (n : nat) (state max_step : BlockVector F)
    (requirement barrier_size step_size : F) (m : Members F) :
  backstep C (S n) state max_step requirement barrier_size step_size m
  = if descent_test C m state max_step requirement barrier_size step_size
    then (step_size, m)
    else backstep C n state max_step requirement barrier_size (div step_size (lit 2%Q)) m.
Proof.
  unfold descent_test, merit. cbn [backstep]. unfold bind, calculate_exact_merit, ret.
  cbn [fst snd].
  match goal with |- context [if ?b then _ else _] => destruct b end; reflexivity.
Qed.

Lemma halved_succ (k : nat) : halved (S k) = div (halved k) (lit 2%Q).
Proof. reflexivity. Qed.

(** The loop entered with [n] passes left at the size reached after [i]
    halvings stops after some [k <= n] further halvings: every size before
    failed the test, and the last one passed it unless [k = n]; the sizes
    tested are those after [i], ..., [i + k] halvings, the last of them
    only if [k < n]. *)
Lemma backstep_result (n i : nat) (state max_step : BlockVector F)
    (requirement barrier_size : F) (m : Members F) :
  exists k : nat,
    (k <= n)%nat
    /\ backstep C n state max_step requirement barrier_size (halved i) m
       = (halved (i + k), m)
    /\ (forall j : nat, (j < k)%nat ->
          descent_test C m state max_step requirement barrier_size (halved (i + j)) = false)
    /\ ((k < n)%nat ->
        descent_test C m state max_step requirement barrier_size (halved (i + k)) = true)
    /\ tested_sizes C m n state max_step requirement barrier_size (halved i)
       = map halved (seq i (Nat.min (S k) n)).
Proof.
  revert i. induction n as [|n IH]; intro i.
  - exists 0%nat. rewrite Nat.add_0_r. repeat split; [lia | | lia]. intros j L. lia.
  - rewrite backstep_unfold. cbn [tested_sizes].
    destruct (descent_test C m state max_step requirement barrier_size (halved i)) eqn:T.
    + exists 0%nat. rewrite Nat.add_0_r. repeat split; [lia | | intros _; exact T].
      intros j L. lia.
    + rewrite <- halved_succ. destruct (IH (S i)) as (k & Lk & E & Fails & Pass & Sizes).
      exists (S k). rewrite <- Nat.add_succ_comm. repeat split; [lia | exact E | | |].
      * intros [|j] L; [rewrite Nat.add_0_r; exact T|].
        rewrite <- Nat.add_succ_comm. apply Fails. lia.
      * intro L. apply Pass. lia.
      * rewrite Sizes. rewrite <- Nat.succ_min_distr. reflexivity.
Qed.

Lemma take_scaled_step_result (state max_step : BlockVector F)
    (requirement barrier_size : F) (m : Members F) :
  exists k : nat,
    (k <= 10)%nat
    /\ take_scaled_step C state max_step requirement barrier_size m
       = (badd state (bscale (halved k) max_step), m).
Proof.
  destruct (backstep_result 10 0 state max_step requirement barrier_size m)
    as (k & Lk & E & _).
  exists k. split; [exact Lk|].
  unfold take_scaled_step, bind. change (@one F _) with (halved (F:=F) 0).
  rewrite E. reflexivity.
Qed.

Lemma take_scaled_step_frame (state max_step : BlockVector F)
    (requirement barrier_size : F) (m : Members F) :
  snd (take_scaled_step C state max_step requirement barrier_size m) = m.
Proof.
  destruct (take_scaled_step_result state max_step requirement barrier_size m)
    as (k & _ & E).
  rewrite E. reflexivity.
Qed.

Lemma calculate_exact_merit_value (test_solution : BlockVector F) (barrier_size : F)
    (m : Members F) :
  calculate_exact_merit C test_solution barrier_size m
  = (merit C m test_solution barrier_size, m).
Proof. reflexivity. Qed.

End LineSearch.

Section ScaledStep.

Local Open Scope Q_scope.

Lemma halved_exact (k : nat) : halved k == (1 # 2) ^ Z.of_nat k.
Proof.
  induction k as [|k IH]; [reflexivity|].
  rewrite halved_succ. exact_arith. rewrite IH.
  rewrite Nat2Z.inj_succ. unfold Z.succ.
  rewrite Qpower_plus by (intro E; discriminate E).
  change ((1 # 2) ^ 1) with (1 # 2). field.
Qed.


Lemma halved_10_fresh (j : nat) : (j < 10)%nat -> halved (F:=Q) j <> halved 10.
Proof.
  intros L E.
  do 10 (destruct j as [|j]; [vm_compute in E; discriminate E|]). lia.
Qed.

Variable C : Collaborators Q.

(** C8, as the code has it: [take_scaled_step] returns
    [state + step_size * step] and the members unchanged, where
    [step_size] is 1 halved [k <= 10] times, that is [(1/2)^k]; each of
    the sizes before failed the descent test and, when [k < 10], this one
    passed it.  When all ten tested sizes 1, 1/2, ..., 1/512 fail, the size
    used is 1/1024, which the loop never tests.  The function always
    returns. *)
Theorem take_scaled_step_spec (state max_step : BlockVector Q)
    (requirement barrier_size : Q) (m : Members Q) :
  exists k : nat,
    (k <= 10)%nat
    /\ take_scaled_step C state max_step requirement barrier_size m
       = (badd state (bscale (halved k) max_step), m)
    /\ halved k == (1 # 2) ^ Z.of_nat k
    /\ (forall j : nat, (j < k)%nat ->
          descent_test C m state max_step requirement barrier_size (halved j) = false)
    /\ ((k < 10)%nat ->
        descent_test C m state max_step requirement barrier_size (halved k) = true)
    /\ (k = 10%nat ->
        tested_sizes C m 10 state max_step requirement barrier_size one
        = map halved (seq 0 10)
        /\ ~ In (halved k)
               (tested_sizes C m 10 state max_step requirement barrier_size one)).
Proof.
  destruct (backstep_result C 10 0 state max_step requirement barrier_size m)
    as (k & Lk & E & Fails & Pass & Sizes).
  change (halved 0) with (@one Q _) in E, Sizes. cbn [Nat.add] in E, Fails, Pass.
  exists k. split; [exact Lk|]. split.
  - unfold take_scaled_step, bind. rewrite E. reflexivity.
  - split; [apply halved_exact|]. split; [exact Fails|]. split; [exact Pass|].
    intro K. subst k. rewrite Sizes. split; [reflexivity|].
    intro I. apply in_map_iff in I. destruct I as (j & Ej & Ij).
    apply in_seq in Ij. apply (@halved_10_fresh j); [lia | exact Ej].
Qed.

End ScaledStep.

Lemma take_scaled_step_spec_witness :
  exists k : nat,
    (k <= 10)%nat
    /\ take_scaled_step Fixture.diagonal (Fixture.uniform 1%Q) (Fixture.uniform (-1)%Q)
         0.0001%Q 25%Q (Fixture.fresh (Fixture.uniform 1%Q))
       = (badd (Fixture.uniform 1%Q) (bscale (halved k) (Fixture.uniform (-1)%Q)),
          Fixture.fresh (Fixture.uniform 1%Q)).
Proof.
  destruct (take_scaled_step_spec Fixture.diagonal (Fixture.uniform 1%Q)
              (Fixture.uniform (-1)%Q) 0.0001%Q 25%Q (Fixture.fresh (Fixture.uniform 1%Q)))
    as (k & Lk & E & _).
  exists k. split; [exact Lk | exact E].
Defined.

(** The claim C8 as it is written fails where it says that the smallest
    tried size is used: on a problem whose merit is constant all ten
    tested sizes fail, the smallest of them is 1/512, and the state
    returned is [state + (1/1024) * step]. *)
Lemma smallest_tried_size_not_used :
  let C := Fixture.constant_residual (F:=Q) in
  let m := Fixture.fresh [] in
  let tested := tested_sizes C m 10 [[1%Q]] [[1%Q]] 0.0001%Q 25%Q one in
  tested = [1%Q; 1 # 2; 1 # 4; 1 # 8; 1 # 16; 1 # 32; 1 # 64; 1 # 128; 1 # 256; 1 # 512]
  /\ forallb (fun size => negb (descent_test C m [[1%Q]] [[1%Q]] 0.0001%Q 25%Q size)) tested
     = true
  /\ fst (take_scaled_step C [[1%Q]] [[1%Q]] 0.0001%Q 25%Q m) = [[1025 # 1024]]
  /\ badd [[1%Q]] (bscale (1 # 512) [[1%Q]]) = [[513 # 512]]
  /\ fst (take_scaled_step C [[1%Q]] [[1%Q]] 0.0001%Q 25%Q m)
     <> badd [[1%Q]] (bscale (1 # 512) [[1%Q]]).
Proof.
  cbv zeta. repeat split; try (vm_compute; reflexivity).
  intro E. vm_compute in E. discriminate E.
Qed.

(** ** [calculate_max_step_size] *)

Section Blocks.

Context {F : Type} `{Scalar F}.

Lemma block_badd (u v : BlockVector F) (i : nat) :
  block (badd u v) i = vadd (block u i) (block v i).
Proof.
  unfold block. revert v i. induction u as [|x u IH]; intros [|y v] [|i]; cbn;
    try reflexivity.
  - destruct x; reflexivity.
  - destruct (nth i u []); reflexivity.
  - apply IH.
Qed.

Lemma block_bscale (a : F) (u : BlockVector F) (i : nat) :
  block (bscale a u) i = scale a (block u i).
Proof.
  unfold block, bscale. change (@nil F) with (scale a []) at 1. apply map_nth.
Qed.

Lemma block_state_test (tau : F) (state step : BlockVector F) (size : F) (i : nat) :
  block (state_test tau state step size) i
  = vadd (scale tau (block state i)) (scale size (block step i)).
Proof.
  unfold state_test. rewrite block_badd, !block_bscale. reflexivity.
Qed.

End Blocks.

Section MaxStepSize.

Local Open Scope Q_scope.

Lemma is_non_negative_iff (v : Vector Q) : is_non_negative v = true <-> non_negative v.
Proof.
  unfold is_non_negative, non_negative. rewrite forallb_forall, Forall_forall.
  split; intros A x I; specialize (A x I); apply leb_exact in A || apply leb_exact;
    exact A.
Qed.

Lemma zero_step_non_negative (tau : Q) (x y : Vector Q) :
  0 < tau -> positive x -> non_negative (vadd (scale tau x) (scale zero y)).
Proof.
  intros T P. revert y. induction P as [|a x Pa P IH]; intros [|b y];
    cbn [vadd scale map]; try constructor.
  - exact_arith. nra.
  - apply IH.
Qed.

Variables (state step : BlockVector Q) (barrier_size : Q).

Lemma bracket_bisect (accept : Q -> bool) (low high : Q) :
  bracket accept low high ->
  let mid := div (add low high) (lit 2) in
  bracket accept (if accept mid then mid else low) (if accept mid then high else mid).
Proof.
  intros (A & B & D & E) mid.
  assert (M : mid == (low + high) * (1 # 2)) by (unfold mid; exact_arith; field).
  unfold bracket. destruct (accept mid) eqn:T.
  - rewrite T. rewrite M. repeat split; try lra.
  - rewrite E. rewrite M. repeat split; try lra.
Qed.

Lemma bisection_brackets (n : nat) :
  interior state ->
  let tau := fraction_to_boundary barrier_size in
  let b := Nat.iter n (bisect tau state step) bisection_start in
  bracket (accept_s tau state step) (step_size_s_low b) (step_size_s_high b)
  /\ bracket (accept_z tau state step) (step_size_z_low b) (step_size_z_high b).
Proof.
  intros (P1 & P2 & P3 & P4) tau.
  assert (T : 0 < tau).
  { pose proof (fraction_to_boundary_range barrier_size) as R. fold tau in R. lra. }
  induction n as [|n IH].
  - cbn. unfold bracket. repeat split; try (apply Qle_refl); try discriminate.
    + unfold accept_s. rewrite !block_state_test. apply andb_true_iff.
      split; apply is_non_negative_iff; apply zero_step_non_negative; assumption.
    + unfold accept_z. rewrite !block_state_test. apply andb_true_iff.
      split; apply is_non_negative_iff; apply zero_step_non_negative; assumption.
  - cbn [Nat.iter]. cbv zeta in IH. destruct IH as [S Z].
    set (b := Nat.iter n (bisect tau state step) bisection_start) in *.
    unfold bisect. cbn [step_size_s_low step_size_s_high step_size_z_low step_size_z_high].
    split.
    + apply (bracket_bisect S).
    + apply (bracket_bisect Z).
Qed.

(** C2: [calculate_max_step_size] returns a pair for every state, step
    and barrier size.  From a state whose slack and slack-multiplier
    blocks are positive the pair [(s, z)] has [0 <= s <= 1] and
    [0 <= z <= 1], the two slack blocks of [tau * state + s * step] and
    the two slack-multiplier blocks of [tau * state + z * step] have no
    negative component. *)
Theorem calculate_max_step_size_feasible :
  (exists s z : Q, calculate_max_step_size state step barrier_size = (s, z))
  /\ (interior state ->
      let tau := fraction_to_boundary barrier_size in
      let s := fst (calculate_max_step_size state step barrier_size) in
      let z := snd (calculate_max_step_size state step barrier_size) in
      0 <= s <= 1
      /\ 0 <= z <= 1
      /\ non_negative (block (state_test tau state step s)
                         SolutionBlocks.density_lower_slack)
      /\ non_negative (block (state_test tau state step s)
                         SolutionBlocks.density_upper_slack)
      /\ non_negative (block (state_test tau state step z)
                         SolutionBlocks.density_lower_slack_multiplier)
      /\ non_negative (block (state_test tau state step z)
                         SolutionBlocks.density_upper_slack_multiplier)).
Proof.
  split.
  - unfold calculate_max_step_size. eexists. eexists. reflexivity.
  - intros I tau s z.
    destruct (bisection_brackets 50 I) as [(S1 & S2 & S3 & S4) (Z1 & Z2 & Z3 & Z4)].
    fold tau in S1, S2, S3, S4, Z1, Z2, Z3, Z4.
    unfold calculate_max_step_size in s, z. fold tau in s, z. cbn [fst snd] in s, z.
    set (b := Nat.iter 50 (bisect tau state step) bisection_start) in *.
    unfold accept_s in S4. unfold accept_z in Z4.
    apply andb_true_iff in S4. apply andb_true_iff in Z4.
    destruct S4 as [S4 S5]. destruct Z4 as [Z4 Z5].
    apply is_non_negative_iff in S4, S5, Z4, Z5.
    subst s z. repeat split; try assumption; lra.
Qed.

End MaxStepSize.

Lemma calculate_max_step_size_feasible_witness :
  let sizes := calculate_max_step_size (Fixture.uniform 1%Q) (Fixture.uniform (-2)%Q) 0.1%Q in
  (0 <= fst sizes <= 1)%Q /\ (0 <= snd sizes <= 1)%Q.
Proof.
  destruct (@calculate_max_step_size_feasible
              (Fixture.uniform 1%Q) (Fixture.uniform (-2)%Q) 0.1%Q) as [_ A].
  assert (I : interior (Fixture.uniform 1%Q)) by (repeat split; repeat constructor).
  destruct (A I) as (Rs & Rz & _). split; [exact Rs | exact Rz].
Defined.

(** ** The slack variables never become negative *)

Section Accepted.

Context {F : Type} `{Scalar F}.


End Accepted.

Section NonNegative.

Local Open Scope Q_scope.





Variable C : Collaborators Q.









End NonNegative.



(** ** [run] returns *)

Section Termination.

Context {F : Type} `{Scalar F}.

Variable C : Collaborators F.

Local Open Scope N_scope.

(** The speculative loop raises [iteration_number] exactly when it finds
    a step. *)
Lemma uphill_cost (n : nat) :
  forall (k : nat) (watchdog_state : BlockVector F) (barrier_size : F)
         (w : Watchdog F) (m : Members F),
    found_step w = false ->
    let w' := fst (uphill C n k watchdog_state barrier_size w m) in
    if found_step w'
    then iteration_number (progress w) < iteration_number (progress w')
    else iteration_number (progress w') = iteration_number (progress w).
Proof.
  induction n as [|n IH]; intros k ws b w m Fw.
  - cbn. rewrite Fw. reflexivity.
  - cbn [uphill]. unfold bind.
    destruct (find_max_step C (current_state (progress w)) b m) as [step m1].
    rewrite !calculate_exact_merit_value.
    match goal with |- context [if ltb ?a ?b then _ else _] => destruct (ltb a b) end.
    + cbn. lia.
    + match goal with
      | |- context [uphill C n (S k) ws b ?w1 m1] =>
        specialize (IH (S k) ws b w1 m1 Fw); cbn [progress iteration_number] in IH
      end.
      exact IH.
Qed.

Lemma backtrack_cost (watchdog_state : BlockVector F) (barrier_size : F)
    (w : Watchdog F) (m : Members F) :
  iteration_number (progress w)
  < iteration_number (fst (backtrack C watchdog_state barrier_size w m)).
Proof.
  unfold backtrack, bind.
  destruct (find_max_step C (current_state (progress w)) barrier_size m) as [step m1].
  destruct (take_scaled_step C (current_state (progress w)) step descent_requirement
              barrier_size m1) as [stretch_state m2].
  rewrite !calculate_exact_merit_value.
  match goal with |- context [if ?c then _ else _] => destruct c end.
  - cbn. lia.
  - match goal with |- context [if ?c then _ else _] => destruct c end.
    + destruct (take_scaled_step C watchdog_state (watchdog_step w) descent_requirement
                  barrier_size m2) as [state m3].
      cbn. lia.
    + destruct (find_max_step C stretch_state barrier_size m2) as [stretch_step m3].
      destruct (take_scaled_step C stretch_state stretch_step descent_requirement
                  barrier_size m3) as [state m4].
      cbn. lia.
Qed.

Lemma watchdog_cycle_cost (barrier_size : F) (p : Progress F) (m : Members F) :
  iteration_number p < iteration_number (fst (watchdog_cycle C barrier_size p m)).
Proof.
  unfold watchdog_cycle, bind.
  pose proof (@uphill_cost max_uphill_steps 0 (current_state p) barrier_size
                (mkWatchdog p [] zero false) m eq_refl) as U.
  destruct (uphill C max_uphill_steps 0 (current_state p) barrier_size
              (mkWatchdog p [] zero false) m) as [w m1].
  cbn [fst progress] in U. destruct (found_step w).
  - exact U.
  - rewrite <- U. apply backtrack_cost.
Qed.

Lemma inner_loop_total (fuel : nat) :
  forall (barrier_size : F) (converged : bool) (p : Progress F) (m : Members F),
    (N.to_nat (10000 - iteration_number p) <= fuel)%nat ->
    exists (p' : Progress F) (m' : Members F),
      inner_loop C fuel barrier_size converged p m = Some (p', m')
      /\ iteration_number p <= iteration_number p'
      /\ (converged = false -> iteration_number p < 10000 ->
          iteration_number p < iteration_number p').
Proof.
  induction fuel as [|fuel IH]; intros b c p m L; cbn [inner_loop].
  - destruct (iteration_number p <? 10000) eqn:B.
    + apply N.ltb_lt in B. lia.
    + rewrite andb_false_r. exists p, m. apply N.ltb_ge in B.
      repeat split; try lia.
  - destruct (negb c && (iteration_number p <? 10000)) eqn:G.
    + apply andb_true_iff in G. destruct G as [_ G]. apply N.ltb_lt in G.
      pose proof (watchdog_cycle_cost b p m) as W.
      destruct (watchdog_cycle C b p m) as [p1 m1]. cbn [fst] in W.
      destruct (check_convergence C (current_state p1) b m1) as [c1 m2].
      destruct (IH b c1 p1 m2) as (p' & m' & E & Le & _); [lia|].
      exists p', m'. repeat split; try exact E; lia.
    + exists p, m. repeat split; try lia.
      intros Ec Lt. subst c. apply N.ltb_lt in Lt. rewrite Lt in G. discriminate G.
Qed.

Lemma outer_loop_total (fuel : nat) :
  forall (barrier_size : F) (p : Progress F) (m : Members F) (log : list F),
    (N.to_nat (10000 - iteration_number p) <= fuel)%nat ->
    exists out : Outcome F, outer_loop C fuel barrier_size p m log = Some out.
Proof.
  induction fuel as [|fuel IH]; intros b p m log L; cbn [outer_loop].
  - unfold keep_going. destruct (iteration_number p <? 10000) eqn:B.
    + apply N.ltb_lt in B. lia.
    + rewrite andb_false_r. eexists. reflexivity.
  - destruct (keep_going C b p m) eqn:G; [|eexists; reflexivity].
    unfold keep_going in G. apply andb_true_iff in G. destruct G as [_ G].
    apply N.ltb_lt in G.
    destruct (@inner_loop_total (S fuel) b false p m L) as (p1 & m1 & E & _ & Lt).
    rewrite E. apply IH. specialize (Lt eq_refl G). lia.
Qed.

Lemma run_total (m : Members F) :
  exists out : Outcome F, run C (N.to_nat 10000) m = Some out.
Proof.
  unfold run. apply outer_loop_total. cbn [iteration_number]. lia.
Qed.

End Termination.

(** ** The barrier size *)

Section Barrier.

Local Open Scope Q_scope.

Variable C : Collaborators Q.

Lemma shrink_barrier_clamp (barrier_size : Q) :
  shrink_barrier C barrier_size
  == Qmax (Qmin (barrier_size * 0.8) (std_pow C barrier_size (lit 1.2))) 0.0005.
Proof.
  unfold shrink_barrier, min_barrier_size.
  set (p := std_pow C barrier_size (lit 1.2)).
  compare_exact (mul barrier_size (lit 0.8)) p E1.
  - rewrite (Q.min_l (barrier_size * 0.8) p) by lra.
    compare_exact (mul barrier_size (lit 0.8)) (@lit Q _ 0.0005) E2; exact_arith.
    + rewrite Q.max_r by lra. reflexivity.
    + rewrite Q.max_l by lra. reflexivity.
  - rewrite (Q.min_r (barrier_size * 0.8) p) by lra.
    compare_exact p (@lit Q _ 0.0005) E2; exact_arith.
    + rewrite Q.max_r by lra. reflexivity.
    + rewrite Q.max_l by lra. reflexivity.
Qed.

Lemma shrink_barrier_range (barrier_size : Q) :
  0.0005 <= barrier_size ->
  0.0005 <= shrink_barrier C barrier_size <= barrier_size.
Proof.
  intro L. rewrite shrink_barrier_clamp.
  set (p := std_pow C barrier_size (lit 1.2)).
  split; [apply Q.le_max_r|].
  apply Q.max_lub; [|exact L].
  apply Qle_trans with (barrier_size * 0.8); [apply Q.le_min_l | lra].
Qed.

Lemma last_cons (A : Type) (l : list A) (x d : A) : last (x :: l) d = last l x.
Proof.
  revert x d. induction l as [|y l IH]; intros x d; [reflexivity|].
  change (last (x :: y :: l) d) with (last (y :: l) d). rewrite !IH. reflexivity.
Qed.

(** The values logged by the outer loop continue the current barrier
    size downwards and stay at or above 0.0005. *)
Lemma outer_loop_log (fuel : nat) :
  forall (barrier_size : Q) (p : Progress Q) (m : Members Q) (log : list Q)
         (out : Outcome Q),
    0.0005 <= barrier_size ->
    outer_loop C fuel barrier_size p m log = Some out ->
    exists later : list Q,
      barrier_log out = log ++ later
      /\ Sorted steps_down (barrier_size :: later)
      /\ Forall (fun b => 0.0005 <= b) later
      /\ final_barrier_size out = last later barrier_size.
Proof.
  induction fuel as [|fuel IH]; intros b p m log out L E; cbn [outer_loop] in E.
  - destruct (keep_going C b p m); [discriminate|]. injection E as <-.
    exists []. rewrite app_nil_r. repeat split; repeat constructor.
  - destruct (keep_going C b p m).
    + destruct (inner_loop C (S fuel) b false p m) as [[p1 m1]|]; [|discriminate].
      destruct (shrink_barrier_range L) as [Lo Hi].
      destruct (IH _ _ _ _ _ Lo E) as (later & Elog & Sd & All & Fin).
      exists (shrink_barrier C b :: later). rewrite Elog, <- app_assoc.
      repeat split.
      * constructor; [exact Sd|]. constructor. exact Hi.
      * constructor; assumption.
      * rewrite Fin. symmetry. apply last_cons.
    + injection E as <-.
      exists []. rewrite app_nil_r. repeat split; repeat constructor.
Qed.

(** A pass of the outer loop runs the inner loop at the current barrier
    size and then updates it: what [run] logs are the iterates of the
    update, one per pass, and the barrier size it ends with is the
    last. *)
Lemma outer_loop_updates (fuel : nat) :
  forall (barrier_size : Q) (p : Progress Q) (m : Members Q) (log : list Q)
         (out : Outcome Q),
    outer_loop C fuel barrier_size p m log = Some out ->
    exists n : nat,
      barrier_log out
      = log ++ map (fun k => Nat.iter k (shrink_barrier C) barrier_size) (seq 1 n)
      /\ final_barrier_size out = Nat.iter n (shrink_barrier C) barrier_size
      /\ (keep_going C barrier_size p m = true -> (1 <= n)%nat).
Proof.
  induction fuel as [|fuel IH]; intros b p m log out E; cbn [outer_loop] in E.
  - destruct (keep_going C b p m); [discriminate|]. injection E as <-.
    exists 0%nat. cbn. rewrite app_nil_r. repeat split. discriminate.
  - destruct (keep_going C b p m).
    + destruct (inner_loop C (S fuel) b false p m) as [[p1 m1]|]; [|discriminate].
      destruct (IH _ _ _ _ _ E) as (n & Elog & Fin & _).
      exists (S n). split; [|split].
      * rewrite Elog, <- app_assoc. f_equal.
        change (seq 1 (S n)) with (1%nat :: seq 2 n). cbn [map app Nat.iter].
        f_equal. rewrite <- (seq_shift n 1), map_map. apply map_ext.
        intro k. rewrite Nat.iter_succ_r. reflexivity.
      * rewrite Fin. rewrite Nat.iter_succ_r. reflexivity.
      * intros _. lia.
    + injection E as <-.
      exists 0%nat. cbn. rewrite app_nil_r. repeat split. discriminate.
Qed.

Lemma outer_loop_pass (fuel : nat) (barrier_size : Q) (p p' : Progress Q)
    (m m' : Members Q) (log : list Q) :
  keep_going C barrier_size p m = true ->
  inner_loop C (S fuel) barrier_size false p m = Some (p', m') ->
  outer_loop C (S fuel) barrier_size p m log
  = outer_loop C fuel (shrink_barrier C barrier_size) p' m'
      (log ++ [shrink_barrier C barrier_size]).
Proof.
  intros G In. cbn [outer_loop]. rewrite G, In. reflexivity.
Qed.

Lemma run_enters (m : Members Q) :
  keep_going C (lit 25) (mkProgress (nonlinear_solution m) [] 0%N) m = true.
Proof.
  unfold keep_going. cbn [iteration_number].
  assert (L : ltb (lit 0.0005) (@lit Q _ 25) = true) by reflexivity.
  rewrite L. reflexivity.
Qed.

(** C5: at the end of each pass of the outer loop [barrier_size] becomes
    [max(min(barrier_size * 0.8, barrier_size^1.2), min_barrier_size)]
    with [min_barrier_size = 0.0005]; over a run, which starts at 25 and
    always returns, the logged barrier sizes never increase and never
    fall below [min_barrier_size].  A pass of the outer loop whose guard
    holds runs the inner loop at the current barrier size and goes on
    with the updated one, logged; [run] makes at least one pass, and what
    it logs are the iterates of the update from 25, the last of which is
    the barrier size it ends with. *)
Theorem barrier_size_schedule :
  (forall barrier_size : Q,
      shrink_barrier C barrier_size
      == Qmax (Qmin (barrier_size * 0.8) (std_pow C barrier_size (lit 1.2))) 0.0005)
  /\ min_barrier_size (F:=Q) == 0.0005
  /\ (forall barrier_size : Q,
        0.0005 <= barrier_size ->
        0.0005 <= shrink_barrier C barrier_size <= barrier_size)
  /\ (forall m : Members Q, exists out : Outcome Q, run C (N.to_nat 10000) m = Some out)
  /\ (forall (fuel : nat) (m : Members Q) (out : Outcome Q),
        run C fuel m = Some out ->
        StronglySorted steps_down (25 :: barrier_log out)
        /\ Forall (fun b => 0.0005 <= b) (25 :: barrier_log out)
        /\ final_barrier_size out == last (barrier_log out) 25)
  /\ (forall (fuel : nat) (barrier_size : Q) (p p' : Progress Q) (m m' : Members Q)
             (log : list Q),
        keep_going C barrier_size p m = true ->
        inner_loop C (S fuel) barrier_size false p m = Some (p', m') ->
        outer_loop C (S fuel) barrier_size p m log
        = outer_loop C fuel (shrink_barrier C barrier_size) p' m'
            (log ++ [shrink_barrier C barrier_size]))
  /\ (forall (fuel : nat) (m : Members Q) (out : Outcome Q),
        run C fuel m = Some out ->
        exists n : nat,
          (1 <= n)%nat
          /\ barrier_log out
             = map (fun k => Nat.iter k (shrink_barrier C) (lit 25)) (seq 1 n)
          /\ final_barrier_size out = Nat.iter n (shrink_barrier C) (lit 25)).
Proof.
  split; [exact shrink_barrier_clamp|]. split; [reflexivity|].
  split; [exact shrink_barrier_range|]. split; [apply run_total|].
  split; [|split].
  2: { intros fuel b p p' m m' log G In. exact (@outer_loop_pass fuel b p p' m m' log G In). }
  2: { intros fuel m out E. unfold run in E.
       destruct (@outer_loop_updates fuel _ _ _ _ _ E) as (n & Elog & Fin & Pos).
       exists n. split; [exact (Pos (run_enters m))|]. split; [exact Elog | exact Fin]. }
  intros fuel m out E. unfold run in E.
  assert (L : 0.0005 <= lit 25) by (exact_arith; lra).
  destruct (@outer_loop_log fuel (lit 25) (mkProgress (nonlinear_solution m) [] 0%N)
              m [] out L E) as (later & Elog & Sd & All & Fin).
  - cbn [app] in Elog. rewrite Elog. repeat split.
    + apply Sorted_StronglySorted; [|exact Sd].
      intros x y z A B. unfold steps_down in *. apply Qle_trans with y; assumption.
    + constructor; [lra | exact All].
    + rewrite Fin. destruct later as [|b later]; [reflexivity|].
      apply Qeq_refl.
Qed.

End Barrier.

Lemma barrier_size_schedule_witness :
  (0.0005 <= shrink_barrier Fixture.diagonal 25 <= 25)%Q
  /\ exists out : Outcome Q,
       run Fixture.diagonal (N.to_nat 10000) (Fixture.fresh (Fixture.uniform 1%Q)) = Some out
       /\ StronglySorted steps_down (25%Q :: barrier_log out)
       /\ Forall (fun b => (0.0005 <= b)%Q) (25%Q :: barrier_log out).
Proof.
  destruct (barrier_size_schedule Fixture.diagonal) as (_ & _ & R & T & L & _).
  split.
  - apply (R 25%Q). discriminate.
  - destruct (T (Fixture.fresh (Fixture.uniform 1%Q))) as [out E].
    exists out. split; [exact E|].
    destruct (L _ _ _ E) as (Sd & All & _). split; assumption.
Defined.

(** ** The watchdog cycle after eight uphill steps *)

Section Backtracking.

Context {F : Type} `{Scalar F}.

Variable C : Collaborators F.

(** The first branch of the cascade in [if (!found_step)]. *)
Lemma watchdog_cycle_stretch (barrier_size : F) (p : Progress F) (m m1 m2 m3 : Members F)
    (w : Watchdog F) (step stretch_state : BlockVector F) :
  speculation C barrier_size p m = (w, m1) ->
  find_max_step C (current_state (progress w)) barrier_size m1 = (step, m2) ->
  take_scaled_step C (current_state (progress w)) step descent_requirement barrier_size m2
  = (stretch_state, m3) ->
  found_step w = false ->
  ltb (merit C m2 (current_state (progress w)) barrier_size)
      (merit C m2 (current_state p) barrier_size)
  || ltb (merit C m2 stretch_state barrier_size) (goal_merit w) = true ->
  watchdog_cycle C barrier_size p m
  = (mkProgress stretch_state step
       (iteration_number p + N.of_nat max_uphill_steps + 1)%N, m2).
Proof.
  unfold speculation. intros Es Ef Et Fw T.
  pose proof (@uphill_cost F _ C max_uphill_steps 0 (current_state p) barrier_size
                (mkWatchdog p [] zero false) m eq_refl) as U.
  cbv zeta in U. rewrite Es in U. cbn [fst] in U.
  rewrite Fw in U. cbn [progress] in U.
  pose proof (take_scaled_step_frame C (current_state (progress w)) step
                descent_requirement barrier_size m2) as Fr.
  rewrite Et in Fr. cbn [snd] in Fr. subst m3.
  unfold watchdog_cycle, bind. rewrite Es, Fw.
  unfold backtrack, bind. rewrite Ef, Et, !calculate_exact_merit_value, T, U.
  reflexivity.
Qed.

End Backtracking.

(* The hypotheses below apply [take_scaled_step] to members over [Q];
   inferring implicit arguments would normalise them. *)
Unset Implicit Arguments.

Section Watchdog.

Local Open Scope Q_scope.

Variable C : Collaborators Q.

(** C1, as the code has it: when none of the eight speculative steps
    passes the goal-merit test, and the merit of the current state is
    below the merit of the watchdog state or the merit of the stretch
    state is below the goal merit, the cycle ends with the stretch state
    as current state and has added [max_uphill_steps + 1 = 9] to
    [iteration_number]. *)
Theorem watchdog_accepts_stretch_state (barrier_size : Q) (p : Progress Q)
    (m m1 m2 m3 : Members Q) (w : Watchdog Q) (step stretch_state : BlockVector Q) :
  speculation C barrier_size p m = (w, m1) ->
  find_max_step C (current_state (progress w)) barrier_size m1 = (step, m2) ->
  take_scaled_step C (current_state (progress w)) step descent_requirement barrier_size m2
  = (stretch_state, m3) ->
  found_step w = false ->
  merit C m2 (current_state (progress w)) barrier_size
    < merit C m2 (current_state p) barrier_size
  \/ merit C m2 stretch_state barrier_size < goal_merit w ->
  current_state (fst (watchdog_cycle C barrier_size p m)) = stretch_state
  /\ iteration_number (fst (watchdog_cycle C barrier_size p m))
     = (iteration_number p + 9)%N.
Proof.
  intros Es Ef Et Fw T.
  rewrite (@watchdog_cycle_stretch Q _ C barrier_size p m m1 m2 m3 w step stretch_state
             Es Ef Et Fw).
  - cbn [fst current_state iteration_number]. split; [reflexivity|].
    change (N.of_nat max_uphill_steps) with 8%N. lia.
  - apply orb_true_iff. destruct T as [T|T]; [left | right]; apply ltb_exact; exact T.
Qed.

End Watchdog.

Set Implicit Arguments.

Lemma watchdog_accepts_stretch_state_witness :
  let C := Fixture.watchdog_trap 1%Q in
  let p := mkProgress Fixture.trap_start [] 0%N in
  let m := Fixture.fresh Fixture.trap_start in
  let w := fst (speculation C 25%Q p m) in
  let m1 := snd (speculation C 25%Q p m) in
  let state := current_state (progress w) in
  let step := fst (find_max_step C state 25%Q m1) in
  let m2 := snd (find_max_step C state 25%Q m1) in
  current_state (fst (watchdog_cycle C 25%Q p m))
  = fst (take_scaled_step C state step descent_requirement 25%Q m2)
  /\ iteration_number (fst (watchdog_cycle C 25%Q p m)) = (0 + 9)%N.
Proof.
  intros C p m w m1 state step m2.
  apply (@watchdog_accepts_stretch_state C 25%Q p m m1 m2
           (snd (take_scaled_step C state step descent_requirement 25%Q m2)) w step
           (fst (take_scaled_step C state step descent_requirement 25%Q m2))).
  - apply surjective_pairing.
  - apply surjective_pairing.
  - apply surjective_pairing.
  - vm_compute. reflexivity.
  - right. vm_compute. reflexivity.
Defined.

(** The claim C1 as it is written fails on the problem
    [Fixture.watchdog_trap 7]: none of the eight steps passes the test
    (the goal merit is 5, the merits along the way are 20), the stretch
    state has merit 7, below the merit 10 of the watchdog state, and yet
    the cycle takes a further scaled step from the stretch state and adds
    10 to [iteration_number]. *)
Lemma stretch_below_watchdog_not_accepted :
  let C := Fixture.watchdog_trap 7%Q in
  let p := mkProgress Fixture.trap_start [] 0%N in
  let m := Fixture.fresh Fixture.trap_start in
  let w := fst (speculation C 25%Q p m) in
  let m1 := snd (speculation C 25%Q p m) in
  let state := current_state (progress w) in
  let step := fst (find_max_step C state 25%Q m1) in
  let m2 := snd (find_max_step C state 25%Q m1) in
  let stretch_state := fst (take_scaled_step C state step descent_requirement 25%Q m2) in
  found_step w = false
  /\ (merit C m2 stretch_state 25 < merit C m2 (current_state p) 25)%Q
  /\ iteration_number (fst (watchdog_cycle C 25%Q p m)) = 10%N
  /\ current_state (fst (watchdog_cycle C 25%Q p m)) <> stretch_state.
Proof.
  cbv zeta. repeat split; try (vm_compute; reflexivity).
  intro E. vm_compute in E. discriminate E.
Qed.

(** * Further properties of the driver *)

Unset Implicit Arguments.

(** ** The iteration budget *)

Section Passes.

Context {F : Type} `{Scalar F}.

Variable C : Collaborators F.

Local Open Scope N_scope.

(** One pass of the speculative loop. *)
Lemma uphill_succ (n k : nat) (watchdog_state : BlockVector F) (barrier_size : F)
    (w : Watchdog F) (m : Members F) :
  uphill C (S n) k watchdog_state barrier_size w m
  = (let step := fst (find_max_step C (current_state (progress w)) barrier_size m) in
     let m1 := snd (find_max_step C (current_state (progress w)) barrier_size m) in
     let wstep := if Nat.eqb k 0 then step else watchdog_step w in
     let state := badd (current_state (progress w)) step in
     let goal :=
       add (merit C m1 watchdog_state barrier_size)
         (mul descent_requirement
            (div (sub (merit C m1 (badd watchdog_state (bscale (lit 0.0001%Q) wstep))
                         barrier_size)
                      (merit C m1 watchdog_state barrier_size))
                 (lit 0.0001%Q))) in
     if ltb (merit C m1 state barrier_size) goal
     then (mkWatchdog
             (mkProgress state step (iteration_number (progress w) + N.of_nat k + 1))
             wstep goal true, m1)
     else uphill C n (S k) watchdog_state barrier_size
            (mkWatchdog (mkProgress state step (iteration_number (progress w)))
               wstep goal (found_step w)) m1).
Proof.
  cbv zeta. cbn [uphill]. unfold bind.
  destruct (find_max_step C (current_state (progress w)) barrier_size m) as [step m1].
  rewrite !calculate_exact_merit_value. cbn [fst snd]. unfold ret.
  destruct (ltb _ _); reflexivity.
Qed.

(** Once a pass has found a step, further passes are not run. *)
Lemma uphill_stable (n : nat) :
  forall (k : nat) (watchdog_state : BlockVector F) (barrier_size : F)
         (w : Watchdog F) (m : Members F) (r : nat),
    found_step w = false ->
    found_step (fst (uphill C n k watchdog_state barrier_size w m)) = true ->
    uphill C (n + r) k watchdog_state barrier_size w m
    = uphill C n k watchdog_state barrier_size w m.
Proof.
  induction n as [|n IH]; intros k ws b w m r Fw Found.
  - cbn in Found. congruence.
  - change (S n + r)%nat with (S (n + r)). rewrite uphill_succ in Found |- *.
    rewrite (uphill_succ n). cbv zeta in Found |- *.
    destruct (ltb _ _); [reflexivity|].
    apply IH; [exact Fw | exact Found].
Qed.

(** The pass that finds the step, counted from 0, charges its number
    plus one. *)
Lemma uphill_charge (j : nat) :
  forall (k : nat) (watchdog_state : BlockVector F) (barrier_size : F)
         (w : Watchdog F) (m : Members F),
    found_step w = false ->
    found_step (fst (uphill C j k watchdog_state barrier_size w m)) = false ->
    found_step (fst (uphill C (S j) k watchdog_state barrier_size w m)) = true ->
    iteration_number (progress (fst (uphill C (S j) k watchdog_state barrier_size w m)))
    = iteration_number (progress w) + N.of_nat (k + j) + 1.
Proof.
  induction j as [|j IH]; intros k ws b w m Fw None Found.
  - rewrite uphill_succ in Found |- *. cbv zeta in Found |- *.
    destruct (ltb _ _).
    + cbn [fst progress iteration_number]. rewrite Nat.add_0_r. reflexivity.
    + cbn in Found. congruence.
  - rewrite uphill_succ in None. rewrite (uphill_succ (S j)) in Found |- *.
    cbv zeta in None, Found |- *.
    destruct (ltb _ _).
    + cbn in None. discriminate None.
    + match type of None with
      | found_step (fst (uphill C j (S k) ws b ?w1 ?m1)) = false =>
        rewrite (IH (S k) ws b w1 m1 Fw None Found)
      end.
      cbn [progress iteration_number]. lia.
Qed.

(** If the loop finds a step, some pass is the first to do so. *)
Lemma uphill_first_success (n : nat) :
  forall (k : nat) (watchdog_state : BlockVector F) (barrier_size : F)
         (w : Watchdog F) (m : Members F),
    found_step w = false ->
    found_step (fst (uphill C n k watchdog_state barrier_size w m)) = true ->
    exists j : nat,
      (j < n)%nat
      /\ found_step (fst (uphill C j k watchdog_state barrier_size w m)) = false
      /\ found_step (fst (uphill C (S j) k watchdog_state barrier_size w m)) = true.
Proof.
  intros k ws b w m Fw. induction n as [|n IH]; intro Found.
  - cbn in Found. congruence.
  - destruct (found_step (fst (uphill C n k ws b w m))) eqn:E.
    + destruct (IH eq_refl) as (j & L & A & B). exists j. repeat split; [lia | exact A | exact B].
    + exists n. repeat split; [lia | exact E | exact Found].
Qed.

Lemma passes_found (barrier_size : F) (p : Progress F) (m : Members F) (k : nat) :
  (k < max_uphill_steps)%nat ->
  found_step (fst (speculation_passes C k barrier_size p m)) = false ->
  found_step (fst (speculation_passes C (S k) barrier_size p m)) = true ->
  watchdog_cycle C barrier_size p m
  = (progress (fst (speculation_passes C (S k) barrier_size p m)),
     snd (speculation_passes C (S k) barrier_size p m))
  /\ iteration_number (fst (watchdog_cycle C barrier_size p m))
     = iteration_number p + N.of_nat k + 1.
Proof.
  unfold speculation_passes. intros L None Found.
  assert (E : watchdog_cycle C barrier_size p m
              = (progress (fst (uphill C (S k) 0 (current_state p) barrier_size
                                  (mkWatchdog p [] zero false) m)),
                 snd (uphill C (S k) 0 (current_state p) barrier_size
                        (mkWatchdog p [] zero false) m))).
  { unfold watchdog_cycle, bind.
    replace max_uphill_steps with (S k + (max_uphill_steps - S k))%nat by lia.
    rewrite (uphill_stable (S k) 0 (current_state p) barrier_size
               (mkWatchdog p [] zero false) m _ eq_refl Found).
    destruct (uphill C (S k) 0 (current_state p) barrier_size
                (mkWatchdog p [] zero false) m) as [w m1].
    cbn [fst snd] in Found |- *. rewrite Found. reflexivity. }
  split; [exact E|]. rewrite E. cbn [fst].
  rewrite (uphill_charge k 0 (current_state p) barrier_size (mkWatchdog p [] zero false) m
             eq_refl None Found).
  reflexivity.
Qed.

End Passes.

Section Budget.

Context {F : Type} `{Scalar F}.

Variable C : Collaborators F.

Local Open Scope N_scope.

(** When the speculative loop, entered at pass [k] with [n] passes left,
    finds a step, it has added between [k + 1] and [k + n] to
    [iteration_number]. *)
Lemma uphill_budget (n : nat) :
  forall (k : nat) (watchdog_state : BlockVector F) (barrier_size : F)
         (w : Watchdog F) (m : Members F),
    found_step w = false ->
    let w' := fst (uphill C n k watchdog_state barrier_size w m) in
    if found_step w'
    then iteration_number (progress w) + N.of_nat k + 1 <= iteration_number (progress w')
         /\ iteration_number (progress w') <= iteration_number (progress w) + N.of_nat (k + n)
    else iteration_number (progress w') = iteration_number (progress w).
Proof.
  induction n as [|n IH]; intros k ws b w m Fw.
  - cbn. rewrite Fw. reflexivity.
  - cbn [uphill]. unfold bind.
    destruct (find_max_step C (current_state (progress w)) b m) as [step m1].
    rewrite !calculate_exact_merit_value.
    match goal with |- context [if ltb ?a ?b then _ else _] => destruct (ltb a b) end.
    + cbn. lia.
    + match goal with
      | |- context [uphill C n (S k) ws b ?w1 m1] =>
        specialize (IH (S k) ws b w1 m1 Fw); cbn [progress iteration_number] in IH
      end.
      cbv zeta in IH |- *.
      destruct (found_step (fst (uphill C n (S k) ws b _ m1))); [|exact IH].
      lia.
Qed.

Lemma backtrack_budget (watchdog_state : BlockVector F) (barrier_size : F)
    (w : Watchdog F) (m : Members F) :
  let p' := fst (backtrack C watchdog_state barrier_size w m) in
  iteration_number p' = iteration_number (progress w) + 9
  \/ iteration_number p' = iteration_number (progress w) + 10.
Proof.
  unfold backtrack, bind.
  destruct (find_max_step C (current_state (progress w)) barrier_size m) as [step m1].
  destruct (take_scaled_step C (current_state (progress w)) step descent_requirement
              barrier_size m1) as [stretch_state m2].
  rewrite !calculate_exact_merit_value.
  match goal with |- context [if ?c then _ else _] => destruct c end.
  - left. cbn. lia.
  - match goal with |- context [if ?c then _ else _] => destruct c end.
    + destruct (take_scaled_step C watchdog_state (watchdog_step w) descent_requirement
                  barrier_size m2) as [state m3].
      left. cbn. lia.
    + destruct (find_max_step C stretch_state barrier_size m2) as [stretch_step m3].
      destruct (take_scaled_step C stretch_state stretch_step descent_requirement
                  barrier_size m3) as [state m4].
      right. cbn. lia.
Qed.

Lemma cycle_cases (barrier_size : F) (p : Progress F) (m : Members F) :
  let p' := fst (watchdog_cycle C barrier_size p m) in
  if found_step (fst (speculation C barrier_size p m))
  then iteration_number p + 1 <= iteration_number p' <= iteration_number p + 8
  else iteration_number p + 9 <= iteration_number p' <= iteration_number p + 10.
Proof.
  unfold watchdog_cycle, speculation, bind.
  pose proof (uphill_budget max_uphill_steps 0 (current_state p) barrier_size
                (mkWatchdog p [] zero false) m eq_refl) as U.
  cbv zeta in U.
  destruct (uphill C max_uphill_steps 0 (current_state p) barrier_size
              (mkWatchdog p [] zero false) m) as [w m1].
  cbn [fst progress] in U |- *. destruct (found_step w).
  - unfold ret. cbn [fst]. change (N.of_nat (0 + max_uphill_steps)) with 8 in U.
    change (N.of_nat 0) with 0 in U. lia.
  - pose proof (backtrack_budget (current_state p) barrier_size w m1) as B.
    cbv zeta in B. rewrite U in B. lia.
Qed.

(** X1: one watchdog cycle adds at least 1 and at most 10 to
    [iteration_number].  When the speculative loop finds a step, some
    pass [k < 8] is the first to find one; the cycle then ends as the
    loop cut off after pass [k] does and has added exactly [k + 1].
    When the loop finds none the cycle adds 9 or 10. *)
Theorem watchdog_cycle_budget (barrier_size : F) (p : Progress F) (m : Members F) :
  let p' := fst (watchdog_cycle C barrier_size p m) in
  iteration_number p + 1 <= iteration_number p'
  /\ iteration_number p' <= iteration_number p + 10
  /\ (found_step (fst (speculation C barrier_size p m)) = true ->
      iteration_number p' <= iteration_number p + 8)
  /\ (found_step (fst (speculation C barrier_size p m)) = false ->
      iteration_number p + 9 <= iteration_number p')
  /\ (forall k : nat,
        (k < max_uphill_steps)%nat ->
        found_step (fst (speculation_passes C k barrier_size p m)) = false ->
        found_step (fst (speculation_passes C (S k) barrier_size p m)) = true ->
        watchdog_cycle C barrier_size p m
        = (progress (fst (speculation_passes C (S k) barrier_size p m)),
           snd (speculation_passes C (S k) barrier_size p m))
        /\ iteration_number p' = iteration_number p + N.of_nat k + 1)
  /\ (found_step (fst (speculation C barrier_size p m)) = true ->
      exists k : nat,
        (k < max_uphill_steps)%nat
        /\ found_step (fst (speculation_passes C k barrier_size p m)) = false
        /\ found_step (fst (speculation_passes C (S k) barrier_size p m)) = true).
Proof.
  intro p'. pose proof (cycle_cases barrier_size p m) as B. cbv zeta in B.
  fold p' in B.
  split; [|split; [|split; [|split; [|split]]]].
  - destruct (found_step (fst (speculation C barrier_size p m))); lia.
  - destruct (found_step (fst (speculation C barrier_size p m))); lia.
  - intro E. rewrite E in B. lia.
  - intro E. rewrite E in B. lia.
  - intros k L None Found. exact (passes_found C barrier_size p m k L None Found).
  - intro E.
    exact (uphill_first_success C max_uphill_steps 0 (current_state p) barrier_size
             (mkWatchdog p [] zero false) m eq_refl E).
Qed.

Lemma inner_loop_bound (fuel : nat) :
  forall (barrier_size : F) (converged : bool) (p p' : Progress F) (m m' : Members F),
    iteration_number p <= 10009 ->
    inner_loop C fuel barrier_size converged p m = Some (p', m') ->
    iteration_number p <= iteration_number p' <= 10009
    /\ (converged = false -> iteration_number p < 10000 ->
        iteration_number p < iteration_number p').
Proof.
  induction fuel as [|fuel IH]; intros b c p p' m m' L E; cbn [inner_loop] in E.
  - destruct (negb c && (iteration_number p <? 10000)) eqn:G; [discriminate|].
    injection E as <- <-. split; [lia|]. intros Ec Lt. subst c.
    apply N.ltb_lt in Lt. rewrite Lt in G. discriminate G.
  - destruct (negb c && (iteration_number p <? 10000)) eqn:G.
    + apply andb_true_iff in G. destruct G as [_ G]. apply N.ltb_lt in G.
      assert (W : iteration_number p + 1 <= iteration_number (fst (watchdog_cycle C b p m))
                  /\ iteration_number (fst (watchdog_cycle C b p m))
                     <= iteration_number p + 10).
      { pose proof (cycle_cases b p m) as W. cbv zeta in W.
        destruct (found_step (fst (speculation C b p m))); lia. }
      destruct W as [W1 W2].
      destruct (watchdog_cycle C b p m) as [p1 m1]. cbn [fst] in W1, W2.
      destruct (check_convergence C (current_state p1) b m1) as [c1 m2].
      destruct (IH b c1 p1 p' m2 m') as [B _]; [lia | exact E |].
      split; lia.
    + injection E as <- <-. split; [lia|]. intros Ec Lt. subst c.
      apply N.ltb_lt in Lt. rewrite Lt in G. discriminate G.
Qed.

Lemma outer_loop_stops (fuel : nat) :
  forall (barrier_size : F) (p : Progress F) (m : Members F) (log : list F)
         (out : Outcome F),
    iteration_number p <= 10009 ->
    outer_loop C fuel barrier_size p m log = Some out ->
    iteration_number p <= iteration_number (final_progress out) <= 10009
    /\ keep_going C (final_barrier_size out) (final_progress out) (final_members out)
       = false.
Proof.
  induction fuel as [|fuel IH]; intros b p m log out L E; cbn [outer_loop] in E.
  - destruct (keep_going C b p m) eqn:G; [discriminate|]. injection E as <-.
    cbn. split; [lia | exact G].
  - destruct (keep_going C b p m) eqn:G.
    + destruct (inner_loop C (S fuel) b false p m) as [[p1 m1]|] eqn:In; [|discriminate].
      destruct (inner_loop_bound (S fuel) b false p p1 m m1 L In) as [B _].
      destruct (IH _ _ _ _ _ (proj2 B) E) as [B' K]. split; [lia | exact K].
    + injection E as <-. cbn. split; [lia | exact G].
Qed.

(** X2: [run] returns, after at most 10000 passes of its outer loop, with
    at most 10009 iterations counted (a cycle starts below 10000 and adds
    at most 10), and either the count has reached 10000 or the barrier
    size is no longer above 0.0005 and [check_convergence] holds for the
    final state. *)
Theorem run_stops (m : Members F) :
  (exists out : Outcome F, run C (N.to_nat 10000) m = Some out)
  /\ (forall (fuel : nat) (out : Outcome F),
        run C fuel m = Some out ->
        iteration_number (final_progress out) <= 10009
        /\ (10000 <= iteration_number (final_progress out)
            \/ (ltb (lit 0.0005%Q) (final_barrier_size out) = false
                /\ fst (check_convergence C (current_state (final_progress out))
                          (final_barrier_size out) (final_members out)) = true))).
Proof.
  split; [exact (run_total C m)|].
  unfold run. intros fuel out E.
  assert (L : iteration_number (mkProgress (nonlinear_solution m) [] 0) <= 10009)
    by (cbn; lia).
  destruct (outer_loop_stops fuel _ _ _ _ _ L E) as [[_ B] K].
  split; [exact B|]. unfold keep_going in K.
  apply andb_false_iff in K. destruct K as [K|K].
  - right. apply orb_false_iff in K. destruct K as [K1 K2].
    split; [exact K1|]. apply negb_false_iff. exact K2.
  - left. apply N.ltb_ge. exact K.
Qed.

End Budget.

Lemma run_stops_witness :
  exists out : Outcome Q,
    run Fixture.diagonal (N.to_nat 10000) (Fixture.fresh (Fixture.uniform 1%Q)) = Some out
    /\ (iteration_number (final_progress out) <= 10009)%N.
Proof.
  destruct (run_stops Fixture.diagonal (Fixture.fresh (Fixture.uniform 1%Q)))
    as [[out E] R].
  exists out. split; [exact E|].
  exact (proj1 (R _ _ E)).
Defined.

Lemma watchdog_cycle_budget_witness :
  let C := Fixture.watchdog_trap 7%Q in
  let p := mkProgress [[]; []; []; [6%Q]; []; [1%Q]; [1%Q]; [1%Q]; [1%Q]] [] 0%N in
  let m := Fixture.fresh Fixture.trap_start in
  found_step (fst (speculation_passes C 2 25%Q p m)) = false
  /\ found_step (fst (speculation_passes C 3 25%Q p m)) = true
  /\ iteration_number (fst (watchdog_cycle C 25%Q p m)) = 3%N.
Proof.
  intros C p m.
  assert (None : found_step (fst (speculation_passes C 2 25%Q p m)) = false)
    by (vm_compute; reflexivity).
  assert (Found : found_step (fst (speculation_passes C 3 25%Q p m)) = true)
    by (vm_compute; reflexivity).
  split; [exact None|]. split; [exact Found|].
  destruct (watchdog_cycle_budget C 25%Q p m) as (_ & _ & _ & _ & K & _).
  destruct (K 2%nat) as [_ E]; [unfold max_uphill_steps; lia | exact None | exact Found |].
  exact E.
Defined.

(** ** The cascade of a watchdog cycle *)

Section FirstPass.

Context {F : Type} `{Scalar F}.

Variable C : Collaborators F.

(** X4: a first Newton step that passes the goal test, its merit being
    below the merit of the watchdog state plus [descent_requirement]
    times the difference quotient along the step, is accepted at once:
    the cycle ends at the watchdog state plus that step, with the members
    as [find_max_step] left them, no line search, and 1 added to
    [iteration_number]. *)
Theorem first_step_accepted (barrier_size : F) (p : Progress F) (m m1 : Members F)
    (step : BlockVector F) :
  find_max_step C (current_state p) barrier_size m = (step, m1) ->
  ltb (merit C m1 (badd (current_state p) step) barrier_size)
      (add (merit C m1 (current_state p) barrier_size)
         (mul descent_requirement
            (div (sub (merit C m1
                         (badd (current_state p) (bscale (lit 0.0001%Q) step))
                         barrier_size)
                      (merit C m1 (current_state p) barrier_size))
                 (lit 0.0001%Q)))) = true ->
  watchdog_cycle C barrier_size p m
  = (mkProgress (badd (current_state p) step) step (iteration_number p + 1)%N, m1).
Proof.
  intros Ef T. unfold watchdog_cycle, bind.
  change max_uphill_steps with (S 7). cbn [uphill]. unfold bind.
  cbn [progress current_state iteration_number Nat.eqb]. rewrite Ef.
  rewrite !calculate_exact_merit_value. cbn [fst snd].
  rewrite T. cbn [ret found_step progress fst snd]. unfold ret.
  cbn [found_step progress]. rewrite N.add_0_r. reflexivity.
Qed.

End FirstPass.

Lemma first_step_accepted_witness :
  let C := Fixture.watchdog_trap 7%Q in
  let p := mkProgress [[]; []; []; [9%Q]; []; [1%Q]; [1%Q]; [1%Q]; [1%Q]] [] 0%N in
  let m := Fixture.fresh Fixture.trap_start in
  iteration_number (fst (watchdog_cycle C 25%Q p m)) = 1%N.
Proof.
  intros C p m.
  rewrite (first_step_accepted C 25%Q p m
             (snd (find_max_step C (current_state p) 25%Q m))
             (fst (find_max_step C (current_state p) 25%Q m))).
  - reflexivity.
  - apply surjective_pairing.
  - vm_compute. reflexivity.
Defined.

Section Fallback.

Local Open Scope Q_scope.

Variable C : Collaborators Q.

(** The watchdog step is the step of the first pass and is kept by the
    later ones. *)
Lemma uphill_watchdog_step (n : nat) :
  forall (k : nat) (watchdog_state : BlockVector Q) (barrier_size : Q)
         (w : Watchdog Q) (m : Members Q),
    watchdog_step (fst (uphill C n k watchdog_state barrier_size w m))
    = match n, k with
      | S _, O => fst (find_max_step C (current_state (progress w)) barrier_size m)
      | _, _ => watchdog_step w
      end.
Proof.
  induction n as [|n IH]; intros k ws b w m; [reflexivity|].
  cbn [uphill]. unfold bind.
  destruct (find_max_step C (current_state (progress w)) b m) as [step m1].
  rewrite !calculate_exact_merit_value.
  match goal with |- context [if ltb ?a ?b then _ else _] => destruct (ltb a b) end.
  - destruct k; reflexivity.
  - rewrite IH. cbn [watchdog_step fst]. destruct n, k; reflexivity.
Qed.

(** X5: the two later branches of the cascade.  When no speculative step was
    found, the merit of the current state is not below that of the
    watchdog state and the merit of the stretch state is not below the
    goal merit, the cycle ends
    - with a scaled step from the watchdog state along the watchdog step
      (the first Newton step of the cycle) and 9 more iterations, if the
      merit of the stretch state is above that of the watchdog state;
    - with a scaled step from the stretch state along a new Newton step
      and 10 more iterations, otherwise. *)
Theorem watchdog_falls_back (barrier_size : Q) (p : Progress Q)
    (m m1 m2 m3 : Members Q) (w : Watchdog Q) (step stretch_state : BlockVector Q) :
  speculation C barrier_size p m = (w, m1) ->
  find_max_step C (current_state (progress w)) barrier_size m1 = (step, m2) ->
  take_scaled_step C (current_state (progress w)) step descent_requirement barrier_size m2
  = (stretch_state, m3) ->
  found_step w = false ->
  merit C m2 (current_state p) barrier_size
    <= merit C m2 (current_state (progress w)) barrier_size ->
  goal_merit w <= merit C m2 stretch_state barrier_size ->
  watchdog_step w = fst (find_max_step C (current_state p) barrier_size m)
  /\ (merit C m2 (current_state p) barrier_size < merit C m2 stretch_state barrier_size ->
      watchdog_cycle C barrier_size p m
      = (mkProgress
           (fst (take_scaled_step C (current_state p) (watchdog_step w)
                   descent_requirement barrier_size m2))
           step (iteration_number p + 9)%N, m2))
  /\ (merit C m2 stretch_state barrier_size <= merit C m2 (current_state p) barrier_size ->
      watchdog_cycle C barrier_size p m
      = (mkProgress
           (fst (take_scaled_step C stretch_state
                   (fst (find_max_step C stretch_state barrier_size m2))
                   descent_requirement barrier_size
                   (snd (find_max_step C stretch_state barrier_size m2))))
           step (iteration_number p + 10)%N,
         snd (find_max_step C stretch_state barrier_size m2))).
Proof.
  unfold speculation. intros Es Ef Et Fw L1 L2.
  pose proof (uphill_cost C max_uphill_steps 0 (current_state p) barrier_size
                (mkWatchdog p [] zero false) m eq_refl) as U.
  cbv zeta in U. rewrite Es in U. cbn [fst] in U. rewrite Fw in U. cbn [progress] in U.
  pose proof (take_scaled_step_frame C (current_state (progress w)) step
                descent_requirement barrier_size m2) as Fr.
  rewrite Et in Fr. cbn [snd] in Fr. subst m3.
  assert (B1 : ltb (merit C m2 (current_state (progress w)) barrier_size)
                   (merit C m2 (current_state p) barrier_size) = false)
    by (apply ltb_exact_false; exact L1).
  assert (B2 : ltb (merit C m2 stretch_state barrier_size) (goal_merit w) = false)
    by (apply ltb_exact_false; exact L2).
  split; [|split].
  - pose proof (uphill_watchdog_step max_uphill_steps 0 (current_state p) barrier_size
                  (mkWatchdog p [] zero false) m) as Ws.
    rewrite Es in Ws. exact Ws.
  - intro L3. apply ltb_exact in L3.
    unfold watchdog_cycle, bind. rewrite Es, Fw. unfold backtrack, bind.
    rewrite Ef, Et, !calculate_exact_merit_value, B1, B2, L3. cbn [orb].
    pose proof (take_scaled_step_frame C (current_state p) (watchdog_step w)
                  descent_requirement barrier_size m2) as Fr.
    destruct (take_scaled_step C (current_state p) (watchdog_step w) descent_requirement
                barrier_size m2) as [state m4].
    cbn [fst snd] in *. subst m4. unfold ret. rewrite U.
    change (N.of_nat max_uphill_steps) with 8%N.
    replace (iteration_number p + 8 + 1)%N with (iteration_number p + 9)%N by lia.
    reflexivity.
  - intro L3. apply ltb_exact_false in L3.
    unfold watchdog_cycle, bind. rewrite Es, Fw. unfold backtrack, bind.
    rewrite Ef, Et, !calculate_exact_merit_value, B1, B2, L3. cbn [orb].
    destruct (find_max_step C stretch_state barrier_size m2) as [stretch_step m4].
    cbn [fst snd].
    pose proof (take_scaled_step_frame C stretch_state stretch_step
                  descent_requirement barrier_size m4) as Fr.
    destruct (take_scaled_step C stretch_state stretch_step descent_requirement
                barrier_size m4) as [state m5].
    cbn [fst snd] in *. subst m5. unfold ret. rewrite U.
    change (N.of_nat max_uphill_steps) with 8%N.
    replace (iteration_number p + 8 + 2)%N with (iteration_number p + 10)%N by lia.
    reflexivity.
Qed.

End Fallback.

Lemma watchdog_falls_back_witness :
  let C := Fixture.watchdog_trap 7%Q in
  let p := mkProgress Fixture.trap_start [] 0%N in
  let m := Fixture.fresh Fixture.trap_start in
  iteration_number (fst (watchdog_cycle C 25%Q p m)) = 10%N.
Proof.
  intros C p m.
  pose (w := fst (speculation C 25%Q p m)).
  pose (m1 := snd (speculation C 25%Q p m)).
  pose (step := fst (find_max_step C (current_state (progress w)) 25%Q m1)).
  pose (m2 := snd (find_max_step C (current_state (progress w)) 25%Q m1)).
  pose (stretch := fst (take_scaled_step C (current_state (progress w)) step
                          descent_requirement 25%Q m2)).
  pose (m3 := snd (take_scaled_step C (current_state (progress w)) step
                     descent_requirement 25%Q m2)).
  destruct (watchdog_falls_back C 25%Q p m m1 m2 m3 w step stretch) as (_ & _ & T).
  - apply surjective_pairing.
  - apply surjective_pairing.
  - apply surjective_pairing.
  - vm_compute. reflexivity.
  - vm_compute. discriminate.
  - vm_compute. discriminate.
  - rewrite T.
    + reflexivity.
    + vm_compute. discriminate.
Defined.

(** ** The penalty multiplier over a run *)

Section PenaltyOverRun.

Local Open Scope Q_scope.

Variable C : Collaborators Q.

Lemma uphill_penalty (n : nat) :
  forall (k : nat) (watchdog_state : BlockVector Q) (barrier_size : Q)
         (w : Watchdog Q) (m : Members Q),
    penalty_multiplier m
    <= penalty_multiplier (snd (uphill C n k watchdog_state barrier_size w m)).
Proof.
  induction n as [|n IH]; intros k ws b w m; [apply Qle_refl|].
  cbn [uphill]. unfold bind.
  pose proof (@penalty_step C (current_state (progress w)) b m) as P.
  destruct (find_max_step C (current_state (progress w)) b m) as [step m1].
  cbn [snd] in P. rewrite !calculate_exact_merit_value.
  match goal with |- context [if ltb ?a ?b then _ else _] => destruct (ltb a b) end.
  - exact P.
  - eapply Qle_trans; [exact P | apply IH].
Qed.

Lemma backtrack_penalty (watchdog_state : BlockVector Q) (barrier_size : Q)
    (w : Watchdog Q) (m : Members Q) :
  penalty_multiplier m
  <= penalty_multiplier (snd (backtrack C watchdog_state barrier_size w m)).
Proof.
  unfold backtrack, bind.
  pose proof (@penalty_step C (current_state (progress w)) barrier_size m) as P.
  destruct (find_max_step C (current_state (progress w)) barrier_size m) as [step m1].
  cbn [snd] in P.
  pose proof (take_scaled_step_frame C (current_state (progress w)) step
                descent_requirement barrier_size m1) as F1.
  destruct (take_scaled_step C (current_state (progress w)) step descent_requirement
              barrier_size m1) as [stretch_state m2].
  cbn [snd] in F1. subst m2. rewrite !calculate_exact_merit_value.
  match goal with |- context [if ?c then _ else _] => destruct c end.
  - exact P.
  - match goal with |- context [if ?c then _ else _] => destruct c end.
    + pose proof (take_scaled_step_frame C watchdog_state (watchdog_step w)
                    descent_requirement barrier_size m1) as F2.
      destruct (take_scaled_step C watchdog_state (watchdog_step w) descent_requirement
                  barrier_size m1) as [state m3].
      cbn [snd] in F2. subst m3. exact P.
    + pose proof (@penalty_step C stretch_state barrier_size m1) as P2.
      destruct (find_max_step C stretch_state barrier_size m1) as [stretch_step m3].
      cbn [snd] in P2.
      pose proof (take_scaled_step_frame C stretch_state stretch_step
                    descent_requirement barrier_size m3) as F3.
      destruct (take_scaled_step C stretch_state stretch_step descent_requirement
                  barrier_size m3) as [state m4].
      cbn [snd] in F3. subst m4. eapply Qle_trans; [exact P | exact P2].
Qed.

Lemma watchdog_cycle_penalty (barrier_size : Q) (p : Progress Q) (m : Members Q) :
  penalty_multiplier m
  <= penalty_multiplier (snd (watchdog_cycle C barrier_size p m)).
Proof.
  unfold watchdog_cycle, bind.
  pose proof (uphill_penalty max_uphill_steps 0 (current_state p) barrier_size
                (mkWatchdog p [] zero false) m) as U.
  destruct (uphill C max_uphill_steps 0 (current_state p) barrier_size
              (mkWatchdog p [] zero false) m) as [w m1].
  cbn [snd] in U. destruct (found_step w).
  - exact U.
  - eapply Qle_trans; [exact U | apply backtrack_penalty].
Qed.

Lemma inner_loop_penalty (fuel : nat) :
  forall (barrier_size : Q) (converged : bool) (p p' : Progress Q) (m m' : Members Q),
    inner_loop C fuel barrier_size converged p m = Some (p', m') ->
    penalty_multiplier m <= penalty_multiplier m'.
Proof.
  induction fuel as [|fuel IH]; intros b c p p' m m' E; cbn [inner_loop] in E.
  - destruct (negb c && (iteration_number p <? 10000)%N); [discriminate|].
    injection E as <- <-. apply Qle_refl.
  - destruct (negb c && (iteration_number p <? 10000)%N).
    + pose proof (watchdog_cycle_penalty b p m) as W.
      destruct (watchdog_cycle C b p m) as [p1 m1]. cbn [snd] in W.
      unfold check_convergence in E.
      eapply Qle_trans; [exact W | exact (IH _ _ _ _ _ _ E)].
    + injection E as <- <-. apply Qle_refl.
Qed.

Lemma outer_loop_penalty (fuel : nat) :
  forall (barrier_size : Q) (p : Progress Q) (m : Members Q) (log : list Q)
         (out : Outcome Q),
    outer_loop C fuel barrier_size p m log = Some out ->
    penalty_multiplier m <= penalty_multiplier (final_members out).
Proof.
  induction fuel as [|fuel IH]; intros b p m log out E; cbn [outer_loop] in E.
  - destruct (keep_going C b p m); [discriminate|]. injection E as <-. apply Qle_refl.
  - destruct (keep_going C b p m).
    + destruct (inner_loop C (S fuel) b false p m) as [[p1 m1]|] eqn:In; [|discriminate].
      eapply Qle_trans; [exact (inner_loop_penalty _ _ _ _ _ _ _ In) | exact (IH _ _ _ _ _ E)].
    + injection E as <-. apply Qle_refl.
Qed.

(** X6: the penalty multiplier never decreases: not over a watchdog cycle,
    with its up to ten calls of [find_max_step], and not over [run].
    Started at 1, as the constructor sets it, it is at least 1 when [run]
    returns. *)
Theorem penalty_never_decreases :
  (forall (barrier_size : Q) (p : Progress Q) (m : Members Q),
      penalty_multiplier m
      <= penalty_multiplier (snd (watchdog_cycle C barrier_size p m)))
  /\ (forall (fuel : nat) (m : Members Q) (out : Outcome Q),
        run C fuel m = Some out ->
        penalty_multiplier m <= penalty_multiplier (final_members out))
  /\ (forall (fuel : nat) (m : Members Q) (out : Outcome Q),
        run C fuel m = Some out ->
        penalty_multiplier m == 1 ->
        1 <= penalty_multiplier (final_members out)).
Proof.
  split; [exact watchdog_cycle_penalty|]. split.
  - intros fuel m out E. exact (outer_loop_penalty _ _ _ _ _ _ E).
  - intros fuel m out E P. rewrite <- P. exact (outer_loop_penalty _ _ _ _ _ _ E).
Qed.

End PenaltyOverRun.

Lemma penalty_never_decreases_witness :
  exists out : Outcome Q,
    run Fixture.diagonal (N.to_nat 10000) (Fixture.fresh (Fixture.uniform 1%Q)) = Some out
    /\ (1 <= penalty_multiplier (final_members out))%Q.
Proof.
  destruct (run_total Fixture.diagonal (Fixture.fresh (Fixture.uniform 1%Q))) as [out E].
  exists out. split; [exact E|].
  destruct (penalty_never_decreases Fixture.diagonal) as (_ & _ & P).
  apply (P _ _ _ E). reflexivity.
Defined.

(** ** How sharp the binary search is *)

Section Sharpness.

Local Open Scope Q_scope.

Variables (state step : BlockVector Q) (barrier_size : Q).

Lemma narrowed_bisect (n : nat) (accept : Q -> bool) (low high : Q) :
  narrowed n accept low high ->
  let mid := div (add low high) (lit 2) in
  narrowed (S n) accept (if accept mid then mid else low) (if accept mid then high else mid).
Proof.
  intros (A & A' & B & D) mid.
  assert (M : mid == (low + high) * (1 # 2)) by (unfold mid; exact_arith; field).
  assert (P : (1 # 2) ^ Z.of_nat (S n) == (1 # 2) ^ Z.of_nat n * (1 # 2)).
  { rewrite Nat2Z.inj_succ. unfold Z.succ.
    rewrite Qpower_plus by (intro E; discriminate E). reflexivity. }
  assert (W : 0 <= (1 # 2) ^ Z.of_nat n) by (apply Qpower_pos; discriminate).
  unfold narrowed. destruct (accept mid) eqn:T.
  - split; [rewrite M; lra|]. split; [exact A'|].
    split; [rewrite P, M, B; ring | exact D].
  - split; [exact A|]. split; [rewrite M; lra|].
    split; [rewrite P, M, B; ring | right; exact T].
Qed.

Lemma bisection_narrowed (n : nat) :
  let tau := fraction_to_boundary barrier_size in
  let b := Nat.iter n (bisect tau state step) bisection_start in
  narrowed n (accept_s tau state step) (step_size_s_low b) (step_size_s_high b)
  /\ narrowed n (accept_z tau state step) (step_size_z_low b) (step_size_z_high b).
Proof.
  intro tau. induction n as [|n IH].
  - cbn. unfold narrowed.
    repeat split; try (apply Qle_refl); try reflexivity; left; reflexivity.
  - cbn [Nat.iter]. cbv zeta in IH. destruct IH as [S Z].
    set (b := Nat.iter n (bisect tau state step) bisection_start) in *.
    unfold bisect. cbn [step_size_s_low step_size_s_high step_size_z_low step_size_z_high].
    split; [apply (narrowed_bisect n _ _ _ S) | apply (narrowed_bisect n _ _ _ Z)].
Qed.

(** X8: [calculate_max_step_size] finds the largest feasible step lengths up
    to [2^-50]: each returned length is at least 0 and below 1 (at most
    [1 - 2^-50], the full step is never returned), and the length
    [2^-50] above it is either 1 or was tested and rejected.  This holds
    for every state and step. *)
Theorem calculate_max_step_size_sharp :
  let tau := fraction_to_boundary barrier_size in
  let s := fst (calculate_max_step_size state step barrier_size) in
  let z := snd (calculate_max_step_size state step barrier_size) in
  (0 <= s /\ s <= 1 - (1 # 2) ^ 50 /\ s < 1
   /\ exists above : Q,
        above == s + (1 # 2) ^ 50
        /\ (above = one \/ accept_s tau state step above = false))
  /\ (0 <= z /\ z <= 1 - (1 # 2) ^ 50 /\ z < 1
      /\ exists above : Q,
           above == z + (1 # 2) ^ 50
           /\ (above = one \/ accept_z tau state step above = false)).
Proof.
  intros tau s z.
  destruct (bisection_narrowed 50) as [(S1 & S2 & S3 & S4) (Z1 & Z2 & Z3 & Z4)].
  fold tau in S1, S2, S3, S4, Z1, Z2, Z3, Z4.
  unfold calculate_max_step_size in s, z. fold tau in s, z. cbn [fst snd] in s, z.
  set (b := Nat.iter 50 (bisect tau state step) bisection_start) in *.
  change (Z.of_nat 50) with 50%Z in S3, Z3.
  assert (W : 0 < (1 # 2) ^ 50) by reflexivity.
  subst s z. split.
  - split; [exact S1|]. split; [rewrite S3 in S2; lra|]. split; [rewrite S3 in S2; lra|].
    exists (step_size_s_high b). split; [exact S3 | exact S4].
  - split; [exact Z1|]. split; [rewrite Z3 in Z2; lra|]. split; [rewrite Z3 in Z2; lra|].
    exists (step_size_z_high b). split; [exact Z3 | exact Z4].
Qed.

End Sharpness.

(** ** The barrier schedule reaches its floor *)

Section Floor.

Local Open Scope Q_scope.

Variable C : Collaborators Q.

Lemma shrink_barrier_factor (barrier_size : Q) :
  0 <= barrier_size ->
  shrink_barrier C barrier_size <= Qmax (barrier_size * 0.8) 0.0005.
Proof.
  intro L. rewrite shrink_barrier_clamp.
  apply Q.max_lub; [|apply Q.le_max_r].
  eapply Qle_trans; [apply Q.le_min_l | apply Q.le_max_l].
Qed.

Lemma shrink_barrier_iter (n : nat) (barrier_size : Q) :
  0.0005 <= barrier_size ->
  0.0005 <= Nat.iter n (shrink_barrier C) barrier_size
  /\ Nat.iter n (shrink_barrier C) barrier_size
     <= Qmax (barrier_size * 0.8 ^ Z.of_nat n) 0.0005.
Proof.
  intro L. induction n as [|n [Lo Hi]].
  - change (Nat.iter 0 (shrink_barrier C) barrier_size) with barrier_size.
    split; [exact L|]. change (0.8 ^ Z.of_nat 0) with 1.
    eapply Qle_trans; [|apply Q.le_max_l]. lra.
  - rewrite Nat.iter_succ. set (y := Nat.iter n (shrink_barrier C) barrier_size) in *.
    split; [apply shrink_barrier_range; exact Lo|].
    eapply Qle_trans; [apply shrink_barrier_factor; lra|].
    assert (P : 0.8 ^ Z.of_nat (S n) == 0.8 ^ Z.of_nat n * 0.8).
    { rewrite Nat2Z.inj_succ. unfold Z.succ.
      rewrite Qpower_plus by (intro E; discriminate E). reflexivity. }
    rewrite P. apply Q.max_lub; [|apply Q.le_max_r].
    destruct (Q.max_spec (barrier_size * 0.8 ^ Z.of_nat n) 0.0005) as [[A E]|[A E]];
      rewrite E in Hi.
    + eapply Qle_trans; [|apply Q.le_max_r]. lra.
    + eapply Qle_trans; [|apply Q.le_max_l]. lra.
Qed.

Lemma floor_is_kept (k : nat) (y : Q) :
  y == 0.0005 -> Nat.iter k (shrink_barrier C) y == 0.0005.
Proof.
  intro E. induction k as [|k IH].
  - exact E.
  - rewrite Nat.iter_succ. set (x := Nat.iter k (shrink_barrier C) y) in *.
    apply Qle_antisym.
    + eapply Qle_trans; [apply shrink_barrier_factor; lra|].
      apply Q.max_lub; lra.
    + apply shrink_barrier_range. lra.
Qed.

(** X9: above the floor 0.0005 every update lowers the barrier size by at
    least a fifth, the floor itself is a fixed point, and 49 updates
    take the initial barrier size 25 to the floor, whatever [std::pow]
    returns. *)
Theorem barrier_reaches_floor :
  (forall barrier_size : Q,
      0.0005 <= barrier_size ->
      shrink_barrier C barrier_size <= Qmax (barrier_size * 0.8) 0.0005)
  /\ shrink_barrier C 0.0005 == 0.0005
  /\ (forall n : nat, (49 <= n)%nat -> Nat.iter n (shrink_barrier C) (lit 25) == 0.0005).
Proof.
  split; [|split].
  - intros b L. apply shrink_barrier_factor. lra.
  - apply (floor_is_kept 1 0.0005). reflexivity.
  - intros n L.
    assert (B : 0.0005 <= lit 25) by (exact_arith; lra).
    destruct (shrink_barrier_iter 49 (lit 25) B) as [Lo Hi].
    set (y := Nat.iter 49 (shrink_barrier C) (lit 25)) in *.
    assert (E49 : y == 0.0005).
    { apply Qle_antisym; [|exact Lo].
      eapply Qle_trans; [exact Hi|].
      apply Q.max_lub; [|apply Qle_refl].
      exact_arith. vm_compute. discriminate. }
    replace n with ((n - 49) + 49)%nat by lia.
    rewrite Nat.iter_add. fold y. apply floor_is_kept. exact E49.
Qed.

End Floor.

Lemma barrier_reaches_floor_witness :
  (shrink_barrier Fixture.diagonal 25 <= Qmax (25 * 0.8) 0.0005)%Q
  /\ (Nat.iter 60 (shrink_barrier Fixture.diagonal) (lit 25) == 0.0005)%Q.
Proof.
  destruct (barrier_reaches_floor Fixture.diagonal) as (A & _ & B).
  split.
  - apply (A 25%Q). discriminate.
  - apply (B 60%nat). repeat constructor.
Defined.

(** ** The fraction to the boundary *)

Section Fraction.

Local Open Scope Q_scope.

(** X10: [fraction_to_boundary] lies between 0.8 and 0.99999 and does not
    grow with the barrier size: it is 0.8 for every barrier size from 0.2
    on and 0.99999 for every barrier size up to 0.00001. *)
Theorem fraction_to_boundary_antitone (b b' : Q) :
  (b <= b' -> fraction_to_boundary b' <= fraction_to_boundary b)
  /\ 0.8 <= fraction_to_boundary b <= 0.99999
  /\ (0.2 <= b -> fraction_to_boundary b == 0.8)
  /\ (b <= 0.00001 -> fraction_to_boundary b == 0.99999).
Proof.
  destruct (fraction_to_boundary_cases b) as (A & B & D).
  destruct (fraction_to_boundary_cases b') as (A' & B' & D').
  pose proof (fraction_to_boundary_range b) as R.
  pose proof (fraction_to_boundary_range b') as R'.
  split; [|split; [exact R|split]].
  - intro L.
    destruct (Qlt_le_dec 0.8 (1 - b')) as [L1|L1].
    + destruct (Qlt_le_dec (1 - b') 0.99999) as [L2|L2].
      * rewrite (A' L1 L2).
        destruct (Qlt_le_dec (1 - b) 0.99999) as [L3|L3].
        -- rewrite A by lra. lra.
        -- rewrite B by lra. lra.
      * rewrite (B' L1 L2). rewrite B by lra. lra.
    + rewrite (D' L1). lra.
  - intro L. apply D. lra.
  - intro L. apply B; lra.
Qed.

End Fraction.

Lemma fraction_to_boundary_antitone_witness :
  (fraction_to_boundary (F:=Q) 25 <= fraction_to_boundary (F:=Q) 0.0005)%Q.
Proof.
  destruct (fraction_to_boundary_antitone 0.0005%Q 25%Q) as (A & _).
  apply A. discriminate.
Defined.

(** ** When the constraint norm vanishes *)

Section ConstraintNorm.

Local Open Scope Q_scope.








End ConstraintNorm.


(** * Set-up *)

(** ** The initial guess of [setup_block_system] *)

Section InitialGuess.

Context {F : Type} `{Scalar F}.

Lemma set_entry_fill (x : F) (n : nat) :
  forall l1 l2 : Vector F,
    length l2 = n ->
    fold_left (fun w k => set_entry w k x) (seq (length l1) n) (l1 ++ l2)
    = l1 ++ repeat x n.
Proof.
  induction n as [|n IH]; intros l1 l2 L.
  - destruct l2; [reflexivity | discriminate].
  - destruct l2 as [|y l2]; [discriminate|]. cbn [seq fold_left repeat].
    assert (E : set_entry (l1 ++ y :: l2) (length l1) x = (l1 ++ [x]) ++ l2).
    { clear. induction l1 as [|z l1 IH]; [reflexivity|].
      cbn [app length set_entry]. rewrite IH. reflexivity. }
    rewrite E.
    replace (S (length l1)) with (length (l1 ++ [x]))
      by (rewrite length_app; cbn; lia).
    rewrite IH by (injection L as L; exact L).
    rewrite <- app_assoc. reflexivity.
Qed.

Lemma fill_zero_vector (x : F) (n : nat) :
  fold_left (fun w k => set_entry w k x) (seq 0 n) (repeat zero n) = repeat x n.
Proof.
  apply (set_entry_fill x n [] (repeat zero n)). apply repeat_length.
Qed.

Lemma guess_displacement_loop (ks : list nat) :
  forall b0 b1 b2 b3 b4 b5 b6 b7 b8 : Vector F,
    fold_left guess_displacement ks [b0; b1; b2; b3; b4; b5; b6; b7; b8]
    = [b0; fold_left (fun w k => set_entry w k zero) ks b1; b2;
       fold_left (fun w k => set_entry w k zero) ks b3; b4; b5; b6; b7; b8].
Proof.
  induction ks as [|k ks IH]; intros; [reflexivity|].
  cbn [fold_left]. unfold guess_displacement at 2. cbn [set_block_entry SolutionBlocks.displacement
    SolutionBlocks.displacement_multiplier]. apply IH.
Qed.

Lemma guess_density_loop (ks : list nat) :
  forall b0 b1 b2 b3 b4 b5 b6 b7 b8 : Vector F,
    fold_left guess_density ks [b0; b1; b2; b3; b4; b5; b6; b7; b8]
    = [fold_left (fun w k => set_entry w k density_ratio) ks b0; b1;
       fold_left (fun w k => set_entry w k density_ratio) ks b2; b3;
       fold_left (fun w k => set_entry w k density_ratio) ks b4;
       fold_left (fun w k => set_entry w k density_ratio) ks b5;
       fold_left (fun w k => set_entry w k (lit 50%Q)) ks b6;
       fold_left (fun w k => set_entry w k (sub one density_ratio)) ks b7;
       fold_left (fun w k => set_entry w k (lit 50%Q)) ks b8].
Proof.
  induction ks as [|k ks IH]; intros; [reflexivity|].
  cbn [fold_left]. unfold guess_density at 2.
  cbn [set_block_entry SolutionBlocks.density SolutionBlocks.unfiltered_density
       SolutionBlocks.unfiltered_density_multiplier SolutionBlocks.density_lower_slack
       SolutionBlocks.density_lower_slack_multiplier SolutionBlocks.density_upper_slack
       SolutionBlocks.density_upper_slack_multiplier].
  apply IH.
Qed.

Lemma initial_guess_blocks (n_p n_u : nat) :
  initial_guess n_p n_u
  = [repeat density_ratio n_p; repeat zero n_u; repeat density_ratio n_p;
     repeat zero n_u; repeat density_ratio n_p; repeat density_ratio n_p;
     repeat (lit 50%Q) n_p; repeat (sub one density_ratio) n_p; repeat (lit 50%Q) n_p].
Proof.
  unfold initial_guess, reinit, block_sizes. cbn [map].
  rewrite guess_displacement_loop, guess_density_loop, !fill_zero_vector. reflexivity.
Qed.

(** X12: the two loops of [setup_block_system] fill every entry of every
    block: densities, unfiltered densities, their multiplier and the
    lower slack with [density_ratio], the upper slack with
    [1 - density_ratio], both slack multipliers with 50, displacements
    and their multipliers with 0; the blocks have the sizes
    [n_p, n_u, n_p, n_u, n_p, n_p, n_p, n_p, n_p]. *)
Theorem initial_guess_values (n_p n_u : nat) :
  initial_guess n_p n_u
  = [repeat density_ratio n_p; repeat zero n_u; repeat density_ratio n_p;
     repeat zero n_u; repeat density_ratio n_p; repeat density_ratio n_p;
     repeat (lit 50%Q) n_p; repeat (sub one density_ratio) n_p; repeat (lit 50%Q) n_p]
  /\ map (@length F) (initial_guess n_p n_u) = block_sizes n_p n_u.
Proof.
  split; [apply initial_guess_blocks|].
  rewrite initial_guess_blocks. cbn [map]. rewrite !repeat_length. reflexivity.
Qed.

End InitialGuess.

Section StartOfRun.

Local Open Scope Q_scope.





End StartOfRun.


(** ** The filter matrix *)

Section Sets.

Lemma set_insert_In (x y : nat) (s : list nat) :
  In y (set_insert x s) <-> y = x \/ In y s.
Proof.
  induction s as [|z s IH]; cbn [set_insert].
  - cbn. intuition.
  - destruct (Nat.ltb x z) eqn:L1; [cbn; intuition|].
    destruct (Nat.eqb x z) eqn:L2.
    + apply Nat.eqb_eq in L2. subst z. cbn. intuition.
    + cbn [In]. rewrite IH. intuition.
Qed.

Lemma set_insert_length (x : nat) (s : list nat) :
  ~ In x s -> length (set_insert x s) = S (length s).
Proof.
  induction s as [|z s IH]; intro N; cbn [set_insert]; [reflexivity|].
  destruct (Nat.ltb x z); [reflexivity|].
  destruct (Nat.eqb x z) eqn:L2.
  - apply Nat.eqb_eq in L2. subst z. exfalso. apply N. left. reflexivity.
  - cbn [length]. rewrite IH; [reflexivity|]. intro I. apply N. right. exact I.
Qed.

Lemma set_insert_NoDup (x : nat) (s : list nat) :
  ~ In x s -> NoDup s -> NoDup (set_insert x s).
Proof.
  induction s as [|z s IH]; intros N D; cbn [set_insert].
  - constructor; [intros [] | constructor].
  - destruct (Nat.ltb x z); [constructor; assumption|].
    destruct (Nat.eqb x z); [exact D|].
    inversion D as [|z' s' Nz Ds]; subst. constructor.
    + rewrite set_insert_In. intros [E|I]; [|exact (Nz I)].
      subst z. apply N. left. reflexivity.
    + apply IH; [|exact Ds]. intro I. apply N. right. exact I.
Qed.

Lemma set_count_In (x : nat) (s : list nat) : set_count x s = true <-> In x s.
Proof.
  unfold set_count. rewrite existsb_exists. split.
  - intros (y & I & E). apply Nat.eqb_eq in E. subst y. exact I.
  - intro I. exists x. split; [exact I | apply Nat.eqb_refl].
Qed.

Lemma set_count_insert (x j : nat) (s : list nat) :
  set_count j (set_insert x s) = Nat.eqb j x || set_count j s.
Proof.
  apply eq_true_iff_eq. rewrite orb_true_iff, Nat.eqb_eq, !set_count_In.
  apply set_insert_In.
Qed.

Lemma bounded_set_length (n : nat) (s : list nat) :
  NoDup s -> Forall (fun c => (c < n)%nat) s -> (length s <= n)%nat.
Proof.
  intros D B.
  assert (I : incl s (seq 0 n)).
  { intros x I. apply in_seq. rewrite Forall_forall in B. specialize (B x I). lia. }
  pose proof (NoDup_incl_length D I) as L. rewrite length_seq in L. exact L.
Qed.

End Sets.

Section Rows.

Local Open Scope Q_scope.

Lemma add_entry_length (row : Vector Q) (k : nat) (x : Q) :
  length (add_entry row k x) = length row.
Proof.
  revert k. induction row as [|y row IH]; intros [|k]; cbn [add_entry length];
    try reflexivity. rewrite IH. reflexivity.
Qed.

Lemma nth_add_entry (row : Vector Q) (k j : nat) (x : Q) :
  (k < length row)%nat ->
  nth j (add_entry row k x) 0
  == if Nat.eqb j k then nth j row 0 + x else nth j row 0.
Proof.
  revert k j. induction row as [|y row IH]; intros k j L; [cbn in L; lia|].
  destruct k as [|k]; destruct j as [|j]; cbn [add_entry nth Nat.eqb].
  - exact_arith. reflexivity.
  - reflexivity.
  - reflexivity.
  - apply IH. cbn in L. lia.
Qed.

Lemma sum_exact (row : Vector Q) (acc : Q) :
  fold_left add row acc == acc + Qsum (fun x => x) row.
Proof.
  revert acc. induction row as [|x row IH]; intro acc; cbn [fold_left Qsum fold_right].
  - ring.
  - rewrite IH. exact_arith. fold (Qsum (fun x => x) row). ring.
Qed.

Lemma Qsum_nonneg (row : Vector Q) :
  Forall (fun x => 0 <= x) row -> 0 <= Qsum (fun x => x) row.
Proof.
  intro N. induction N as [|x row Nx N IH]; [apply Qle_refl|].
  cbn [Qsum fold_right]. fold (Qsum (fun x => x) row). lra.
Qed.

Lemma Qsum_bounds_entry (row : Vector Q) (j : nat) :
  Forall (fun x => 0 <= x) row -> nth j row 0 <= Qsum (fun x => x) row.
Proof.
  intro N. revert j. induction N as [|x row Nx N IH]; intro j.
  - destruct j; apply Qle_refl.
  - cbn [Qsum fold_right]. fold (Qsum (fun x => x) row).
    pose proof (Qsum_nonneg row N) as S. destruct j as [|j]; cbn [nth].
    + lra.
    + specialize (IH j). lra.
Qed.

End Rows.

Section FilterSearch.

Local Open Scope Q_scope.

Variable M : Mesh Q.
Hypothesis WF : well_formed M.
Variable i : nat.
Hypothesis cell_i : (i < n_cells M)%nat.

(** The invariant together with the fact that the cells still to check
    are among the neighbours found. *)
Let state_ok (st : Search Q) : Prop :=
  search_invariant M i (neighbor_ids st) (matrix_row st)
  /\ Forall (fun c => In c (neighbor_ids st)) (cells_to_check_temp st).

Lemma visit_ok (st : Search Q) (nb : nat) :
  state_ok st -> (nb < n_cells M)%nat ->
  state_ok (visit M i st nb)
  /\ (length (neighbor_ids st) <= length (neighbor_ids (visit M i st nb)))%nat.
Proof.
  intros [(D & B & Ii & R & L & V) T] Nb. unfold visit.
  destruct (ltb (center_distance M i nb) filter_r) eqn:Near; cbn [andb];
    [|split; [split; [repeat split; assumption | exact T] | lia]].
  destruct (set_count nb (neighbor_ids st)) eqn:Known; cbn [negb];
    [split; [split; [repeat split; assumption | exact T] | lia]|].
  apply ltb_exact in Near. unfold filter_r in Near. rewrite lit_exact in Near.
  assert (New : ~ In nb (neighbor_ids st)).
  { intro I. apply set_count_In in I. congruence. }
  assert (Other : nb <> i) by (intro E; subst nb; exact (New Ii)).
  unfold state_ok. cbn [neighbor_ids matrix_row cells_to_check_temp]. split; [split|].
  - refine (conj _ (conj _ (conj _ (conj _ (conj _ _))))).
    + apply set_insert_NoDup; assumption.
    + apply Forall_forall. intros c I. apply set_insert_In in I.
      destruct I as [->|I]; [exact Nb|]. rewrite Forall_forall in B. exact (B c I).
    + apply set_insert_In. right. exact Ii.
    + intros j I Nj. apply set_insert_In in I.
      destruct I as [->|I]; [exact Near | exact (R j I Nj)].
    + rewrite add_entry_length. exact L.
    + intros j Lj. rewrite nth_add_entry by (rewrite L; exact Nb).
      rewrite set_count_insert. unfold filter_r.
      destruct (Nat.eqb j nb) eqn:E1.
      * apply Nat.eqb_eq in E1. subst j. rewrite (V nb Nb).
        destruct (Nat.eqb nb i) eqn:E2; [apply Nat.eqb_eq in E2; contradiction|].
        rewrite Known. cbn [orb]. exact_arith. ring.
      * cbn [orb]. exact (V j Lj).
  - apply Forall_forall. intros c I. apply set_insert_In. apply set_insert_In in I.
    destruct I as [->|I]; [left; reflexivity|].
    right. rewrite Forall_forall in T. exact (T c I).
  - rewrite set_insert_length by exact New. lia.
Qed.

Lemma faces_ok (nbs : list nat) :
  forall st : Search Q,
    state_ok st -> Forall (fun nb => (nb < n_cells M)%nat) nbs ->
    state_ok (fold_left (visit M i) nbs st)
    /\ (length (neighbor_ids st)
        <= length (neighbor_ids (fold_left (visit M i) nbs st)))%nat.
Proof.
  induction nbs as [|nb nbs IH]; intros st Ok B; cbn [fold_left]; [split; [exact Ok | lia]|].
  inversion B as [|x l Bx Bl]; subst.
  destruct (visit_ok st nb Ok Bx) as [Ok1 L1].
  destruct (IH _ Ok1 Bl) as [Ok2 L2]. split; [exact Ok2 | lia].
Qed.

Lemma cells_ok (cells : list nat) :
  forall st : Search Q,
    state_ok st -> Forall (fun c => (c < n_cells M)%nat) cells ->
    let st' := fold_left (fun st c => fold_left (visit M i) (cell_neighbors M c) st)
                 cells st in
    state_ok st' /\ (length (neighbor_ids st) <= length (neighbor_ids st'))%nat.
Proof.
  induction cells as [|c cells IH]; intros st Ok B; cbn [fold_left]; [split; [exact Ok | lia]|].
  inversion B as [|x l Bx Bl]; subst.
  destruct (faces_ok (cell_neighbors M c) st Ok (WF c Bx)) as [Ok1 L1].
  destruct (IH _ Ok1 Bl) as [Ok2 L2]. split; [exact Ok2 | lia].
Qed.

Lemma sweep_ok (cells ids : list nat) (row : Vector Q) :
  search_invariant M i ids row ->
  Forall (fun c => In c ids) cells ->
  state_ok (sweep M i cells ids row)
  /\ (length ids <= length (neighbor_ids (sweep M i cells ids row)))%nat.
Proof.
  intros Inv Sub. unfold sweep.
  apply (cells_ok cells (mkSearch [] ids row)).
  - split; [exact Inv | constructor].
  - destruct Inv as (_ & B & _). rewrite Forall_forall in *.
    intros c I. exact (B c (Sub c I)).
Qed.

Lemma grows_refl (st : Search Q) : grows st st.
Proof.
  split; [apply incl_refl | split; [apply incl_refl | intros x I; left; exact I]].
Qed.

Lemma grows_trans (st1 st2 st3 : Search Q) :
  grows st1 st2 -> grows st2 st3 -> grows st1 st3.
Proof.
  intros (A1 & B1 & C1) (A2 & B2 & C2). split; [|split].
  - exact (incl_tran A1 A2).
  - exact (incl_tran B1 B2).
  - intros x I. destruct (C2 x I) as [J|J]; [|right; exact J].
    destruct (C1 x J) as [K|K]; [left; exact K | right; exact (B2 x K)].
Qed.

Lemma visit_grows (st : Search Q) (nb : nat) :
  grows st (visit M i st nb)
  /\ (center_distance M i nb < 0.251 -> In nb (neighbor_ids (visit M i st nb))).
Proof.
  unfold visit.
  destruct (ltb (center_distance M i nb) filter_r) eqn:Near; cbn [andb].
  - destruct (set_count nb (neighbor_ids st)) eqn:Known; cbn [negb].
    + split; [apply grows_refl|]. intros _. apply set_count_In. exact Known.
    + cbn [neighbor_ids]. split; [|intros _; apply set_insert_In; left; reflexivity].
      split; [|split]; cbn [neighbor_ids cells_to_check_temp].
      * intros x I. apply set_insert_In. right. exact I.
      * intros x I. apply set_insert_In. right. exact I.
      * intros x I. apply set_insert_In in I. destruct I as [->|I];
          [right; apply set_insert_In; left; reflexivity | left; exact I].
  - split; [apply grows_refl|]. intro L.
    apply ltb_exact_false in Near. unfold filter_r in Near. rewrite lit_exact in Near. lra.
Qed.

Lemma visit_linked (st : Search Q) (c nb : nat) :
  (forall x : nat, In x (neighbor_ids st) -> linked M i x) ->
  linked M i c -> In nb (cell_neighbors M c) ->
  forall x : nat, In x (neighbor_ids (visit M i st nb)) -> linked M i x.
Proof.
  intros Lk Lc Nb x. unfold visit.
  destruct (ltb (center_distance M i nb) filter_r) eqn:Near; cbn [andb]; [|apply Lk].
  destruct (negb (set_count nb (neighbor_ids st))); [|apply Lk].
  cbn [neighbor_ids]. intro I. apply set_insert_In in I.
  destruct I as [->|I]; [|exact (Lk x I)].
  apply ltb_exact in Near. unfold filter_r in Near. rewrite lit_exact in Near.
  exact (@linked_step M i c nb Lc Nb Near).
Qed.

Lemma faces_reach (c : nat) (nbs : list nat) :
  forall st : Search Q,
    (forall x : nat, In x (neighbor_ids st) -> linked M i x) ->
    linked M i c -> incl nbs (cell_neighbors M c) ->
    let st' := fold_left (visit M i) nbs st in
    grows st st'
    /\ (forall x : nat, In x (neighbor_ids st') -> linked M i x)
    /\ (forall nb : nat, In nb nbs -> center_distance M i nb < 0.251 ->
          In nb (neighbor_ids st')).
Proof.
  induction nbs as [|nb nbs IH]; intros st Lk Lc Sub; cbn [fold_left].
  - split; [apply grows_refl|]. split; [exact Lk | intros nb []].
  - destruct (visit_grows st nb) as [G1 N1].
    assert (Lk1 := visit_linked st c nb Lk Lc (Sub nb (or_introl eq_refl))).
    destruct (IH (visit M i st nb) Lk1 Lc (fun x I => Sub x (or_intror I)))
      as (G2 & Lk2 & N2).
    split; [exact (grows_trans _ _ _ G1 G2)|]. split; [exact Lk2|].
    intros x [<-|I] Near; [|exact (N2 x I Near)].
    destruct G2 as [G2 _]. exact (G2 _ (N1 Near)).
Qed.

Lemma cells_reach (cells : list nat) :
  forall st : Search Q,
    (forall x : nat, In x (neighbor_ids st) -> linked M i x) ->
    (forall c : nat, In c cells -> linked M i c) ->
    let st' := fold_left (fun st c => fold_left (visit M i) (cell_neighbors M c) st)
                 cells st in
    grows st st'
    /\ (forall x : nat, In x (neighbor_ids st') -> linked M i x)
    /\ (forall c nb : nat, In c cells -> In nb (cell_neighbors M c) ->
          center_distance M i nb < 0.251 -> In nb (neighbor_ids st')).
Proof.
  induction cells as [|c cells IH]; intros st Lk Lc; cbn [fold_left].
  - split; [apply grows_refl|]. split; [exact Lk | intros c nb []].
  - destruct (faces_reach c (cell_neighbors M c) st Lk (Lc c (or_introl eq_refl))
                (incl_refl _)) as (G1 & Lk1 & N1).
    destruct (IH _ Lk1 (fun x I => Lc x (or_intror I))) as (G2 & Lk2 & N2).
    split; [exact (grows_trans _ _ _ G1 G2)|]. split; [exact Lk2|].
    intros x nb [<-|I] Nb Near; [|exact (N2 x nb I Nb Near)].
    destruct G2 as [G2 _]. exact (G2 _ (N1 nb Nb Near)).
Qed.

Lemma sweep_reach (cells ids : list nat) (row : Vector Q) :
  search_reach M i cells ids ->
  Forall (fun c => In c ids) cells ->
  let st := sweep M i cells ids row in
  search_reach M i (cells_to_check_temp st) (neighbor_ids st)
  /\ (NoDup ids -> length (neighbor_ids st) = length ids ->
      search_reach M i [] (neighbor_ids st)).
Proof.
  intros [Lk Cl] Sub st. rewrite Forall_forall in Sub.
  destruct (cells_reach cells (mkSearch [] ids row) Lk (fun c I => Lk c (Sub c I)))
    as ((G1 & _ & G3) & Lk' & N).
  fold (sweep M i cells ids row) in G1, G3, Lk', N. fold st in G1, G3, Lk', N.
  cbn [neighbor_ids cells_to_check_temp] in G1, G3.
  assert (Old : forall c nb : nat, In c ids -> In nb (cell_neighbors M c) ->
                  center_distance M i nb < 0.251 -> In nb (neighbor_ids st)).
  { intros c nb I Nb Near. destruct (in_dec Nat.eq_dec c cells) as [J|J].
    - exact (N c nb J Nb Near).
    - exact (G1 nb (Cl c nb I J Nb Near)). }
  split; [split; [exact Lk'|] | intros D E; split; [exact Lk'|]].
  - intros c nb I J. destruct (G3 c I) as [K|K]; [|contradiction]. exact (Old c nb K).
  - intros c nb I _. apply (Old c nb).
    assert (Back : incl (neighbor_ids st) ids).
    { apply NoDup_length_incl; [exact D | rewrite E; apply Nat.le_refl | exact G1]. }
    exact (Back c I).
Qed.

Lemma search_ok (fuel : nat) :
  forall (cells ids : list nat) (row : Vector Q),
    search_invariant M i ids row ->
    Forall (fun c => In c ids) cells ->
    search_reach M i cells ids ->
    (n_cells M - length ids < fuel)%nat ->
    exists (ids' : list nat) (row' : Vector Q),
      search M fuel i cells ids row (length ids) = Some row'
      /\ search_invariant M i ids' row'
      /\ search_reach M i [] ids'.
Proof.
  induction fuel as [|fuel IH]; intros cells ids row Inv Sub Rch L; [lia|].
  cbn [search]. destruct (sweep_ok cells ids row Inv Sub) as [[Inv' Sub'] Len].
  destruct (sweep_reach cells ids row Rch Sub) as [Rch' Done].
  destruct (Nat.eqb (length (neighbor_ids (sweep M i cells ids row))) (length ids)) eqn:E.
  - apply Nat.eqb_eq in E. eexists. eexists. split; [reflexivity|].
    split; [exact Inv'|]. destruct Inv as (D & _). exact (Done D E).
  - apply Nat.eqb_neq in E.
    apply IH; [exact Inv' | exact Sub' | exact Rch' |].
    destruct Inv' as (D & B & _). pose proof (bounded_set_length _ _ D B). lia.
Qed.

Lemma first_entry_ok :
  search_invariant M i [i] (add_entry (repeat zero (n_cells M)) i filter_r).
Proof.
  refine (conj _ (conj _ (conj _ (conj _ (conj _ _))))).
  - constructor; [intros [] | constructor].
  - constructor; [exact cell_i | constructor].
  - left. reflexivity.
  - intros j [E|[]] N. subst j. contradiction.
  - rewrite add_entry_length. apply repeat_length.
  - intros j Lj. rewrite nth_add_entry by (rewrite repeat_length; exact cell_i).
    unfold set_count. cbn [existsb]. rewrite orb_false_r.
    destruct (Nat.eqb j i) eqn:E.
    + rewrite nth_repeat_lt by exact Lj. unfold filter_r. exact_arith. ring.
    + rewrite nth_repeat_lt by exact Lj. reflexivity.
Qed.

Lemma filter_row_ok (fuel : nat) :
  (n_cells M <= fuel)%nat ->
  exists (ids : list nat) (row : Vector Q),
    filter_row M fuel i = Some row
    /\ search_invariant M i ids row
    /\ search_reach M i [] ids.
Proof.
  intro L. unfold filter_row.
  apply (search_ok fuel [i] [i] _ first_entry_ok).
  - constructor; [left; reflexivity | constructor].
  - split.
    + intros c [<-|[]]. apply (@linked_self M i).
    + intros c nb [<-|[]] N. exfalso. apply N. left. reflexivity.
  - cbn [length]. lia.
Qed.

Lemma linked_found (ids : list nat) :
  In i ids -> search_reach M i [] ids ->
  forall j : nat, linked M i j <-> In j ids.
Proof.
  intros Ii [Lk Cl] j. split; [|apply Lk].
  intro R. induction R as [|c nb R IH Nb Near]; [exact Ii|].
  exact (Cl c nb IH (fun F => F) Nb Near).
Qed.

Lemma invariant_entries (ids : list nat) (row : Vector Q) :
  search_invariant M i ids row ->
  Forall (fun x => 0 <= x) row
  /\ nth i row 0 == 0.251
  /\ (forall j : nat, (j < n_cells M)%nat -> ~ nth j row 0 == 0 ->
        j = i \/ center_distance M i j < 0.251).
Proof.
  intros (D & B & Ii & R & L & V). split; [|split].
  - apply Forall_forall. intros x I. apply (In_nth _ _ 0) in I.
    destruct I as (j & Lj & <-). rewrite L in Lj. rewrite (V j Lj).
    destruct (Nat.eqb j i) eqn:E; [discriminate|].
    destruct (set_count j ids) eqn:K; [|apply Qle_refl].
    apply set_count_In in K. apply Nat.eqb_neq in E. specialize (R j K E). lra.
  - rewrite (V i cell_i), Nat.eqb_refl. reflexivity.
  - intros j Lj N. rewrite (V j Lj) in N.
    destruct (Nat.eqb j i) eqn:E; [left; apply Nat.eqb_eq; exact E|].
    destruct (set_count j ids) eqn:K; [|exfalso; apply N; reflexivity].
    right. apply set_count_In in K. apply Nat.eqb_neq in E. exact (R j K E).
Qed.

End FilterSearch.

Section FilterMatrix.

Local Open Scope Q_scope.

Variable M : Mesh Q.
Hypothesis WF : well_formed M.

Lemma normalize_ok (row : Vector Q) (i : nat) :
  Forall (fun x => 0 <= x) row -> 0 < nth i row 0 ->
  nth i row 0 <= fold_left add row zero
  /\ length (normalize row) = length row
  /\ Forall (fun x => 0 <= x <= 1) (normalize row)
  /\ 0 < nth i (normalize row) 0.
Proof.
  intros N P. unfold normalize.
  set (d := fold_left add row zero).
  assert (D : d == Qsum (fun x => x) row).
  { unfold d. rewrite sum_exact. exact_arith. ring. }
  assert (B : nth i row 0 <= d).
  { rewrite D. apply Qsum_bounds_entry. exact N. }
  assert (Pd : 0 < d) by lra.
  split; [exact B|]. split; [apply length_map|]. split.
  - apply Forall_forall. intros y I. apply in_map_iff in I.
    destruct I as (x & <- & I). rewrite div_exact.
    rewrite Forall_forall in N. pose proof (N x I) as Nx.
    destruct (In_nth _ _ 0 I) as (j & _ & E).
    pose proof (Qsum_bounds_entry row j (proj2 (Forall_forall _ _) N)) as Bj.
    rewrite E, <- D in Bj. split.
    + apply Qle_shift_div_l; [exact Pd | lra].
    + apply Qle_shift_div_r; [exact Pd | lra].
  - destruct (Nat.lt_ge_cases i (length row)) as [L|L].
    + rewrite (nth_indep _ 0 (div 0 d)) by (rewrite length_map; exact L).
      rewrite (map_nth (fun value => div value d)). rewrite div_exact.
      apply Qlt_shift_div_l; [exact Pd | lra].
    + rewrite nth_overflow in P by exact L. lra.
Qed.

(** X14: the neighbour search of [setup_filter_matrix] for one cell of a
    mesh whose neighbours are cells ends within [n_cells] passes; row
    [i] then has one entry per cell, [filter_r] on the diagonal,
    [filter_r - distance] > 0 in the columns of the cells reached from
    [i] through neighbours closer to [i] than [filter_r], and 0 in every
    other column. *)
Theorem filter_row_entries (i fuel : nat) :
  (i < n_cells M)%nat -> (n_cells M <= fuel)%nat ->
  exists row : Vector Q,
    filter_row M fuel i = Some row
    /\ length row = n_cells M
    /\ nth i row 0 == 0.251
    /\ (forall j : nat, (j < n_cells M)%nat -> j <> i ->
          (linked M i j
           /\ center_distance M i j < 0.251
           /\ nth j row 0 == 0.251 - center_distance M i j)
          \/ (~ linked M i j /\ nth j row 0 == 0)).
Proof.
  intros Li Lf.
  destruct (filter_row_ok M WF i Li fuel Lf) as (ids & row & E & Inv & Rch).
  exists row. split; [exact E|].
  destruct Inv as (D & B & Ii & R & L & V).
  pose proof (linked_found M i ids Ii Rch) as Found.
  split; [exact L|]. split.
  - rewrite (V i Li), Nat.eqb_refl. reflexivity.
  - intros j Lj N. pose proof (V j Lj) as Vj.
    destruct (Nat.eqb j i) eqn:Eq; [apply Nat.eqb_eq in Eq; contradiction|].
    destruct (set_count j ids) eqn:K.
    + left. apply set_count_In in K.
      split; [apply Found; exact K|]. split; [exact (R j K N) | exact Vj].
    + right. split; [|exact Vj]. intro Lk. apply Found in Lk.
      apply set_count_In in Lk. congruence.
Qed.

(** What the normalisation loop leaves in row [i]. *)
Lemma normalized_row (fuel i : nat) :
  (i < n_cells M)%nat -> (n_cells M <= fuel)%nat ->
  exists raw : Vector Q,
    filter_row M fuel i = Some raw
    /\ filter_matrix_row M fuel i = Some (normalize raw)
    /\ 0.251 <= fold_left add raw zero
    /\ length (normalize raw) = n_cells M
    /\ (forall j : nat, (j < n_cells M)%nat ->
          nth j (normalize raw) 0 = div (nth j raw 0) (fold_left add raw zero))
    /\ Forall (fun x => 0 <= x <= 1) (normalize raw)
    /\ 0 < nth i (normalize raw) 0.
Proof.
  intros Li Lf.
  destruct (filter_row_ok M WF i Li fuel Lf) as (ids & raw & E & Inv & _).
  destruct (invariant_entries M i Li ids raw Inv) as (N & Di & _).
  assert (P : 0 < nth i raw 0) by (rewrite Di; reflexivity).
  destruct (normalize_ok raw i N P) as (A & B & C & D).
  assert (L : length raw = n_cells M) by (destruct Inv as (_ & _ & _ & _ & L & _); exact L).
  exists raw. split; [exact E|].
  split; [unfold filter_matrix_row; rewrite E; reflexivity|].
  split; [rewrite <- Di; exact A|].
  split; [rewrite B; exact L|].
  split; [|split; [exact C | exact D]].
  intros j Lj. unfold normalize.
  rewrite (nth_indep _ 0 (div 0 (fold_left add raw zero)))
    by (rewrite length_map, L; exact Lj).
  apply (map_nth (fun value => div value (fold_left add raw zero))).
Qed.

Lemma rows_built (fuel : nat) (cells : list nat) :
  (n_cells M <= fuel)%nat ->
  Forall (fun i => (i < n_cells M)%nat) cells ->
  exists rows : list (Vector Q),
    fold_right (fun i rows =>
                  match filter_matrix_row M fuel i, rows with
                  | Some row, Some rows' => Some (row :: rows')
                  | _, _ => None
                  end) (Some []) cells = Some rows
    /\ length rows = length cells
    /\ forall k : nat, (k < length cells)%nat ->
         filter_matrix_row M fuel (nth k cells 0%nat) = Some (nth k rows []).
Proof.
  intros Lf B. induction B as [|i cells Bi B IH]; cbn [fold_right].
  - exists []. repeat split. intros k L. cbn in L. lia.
  - destruct IH as (rows & -> & L & R).
    destruct (normalized_row fuel i Bi Lf) as (raw & _ & E & _).
    rewrite E. exists (normalize raw :: rows).
    split; [reflexivity|]. split; [cbn [length]; lia|].
    intros [|k] Lk; cbn [nth]; [exact E|].
    apply R. cbn [length] in Lk. lia.
Qed.

(** X15: [setup_filter_matrix] ends within [n_cells] passes of each
    neighbour search and leaves one row per cell.  Entry [j] of row [i]
    is entry [j] of the row of the search divided by the sum of the
    entries of that row; the sum is at least [filter_r], so that no
    entry is divided by zero, every entry lies between 0 and 1, and the
    diagonal entry is positive. *)
Theorem filter_matrix_entries (fuel : nat) :
  (n_cells M <= fuel)%nat ->
  exists rows : list (Vector Q),
    setup_filter_matrix M fuel = Some rows
    /\ length rows = n_cells M
    /\ forall i : nat, (i < n_cells M)%nat ->
         exists raw : Vector Q,
           filter_row M fuel i = Some raw
           /\ nth i rows [] = normalize raw
           /\ 0.251 <= fold_left add raw zero
           /\ length (nth i rows []) = n_cells M
           /\ (forall j : nat, (j < n_cells M)%nat ->
                 nth j (nth i rows []) 0
                 = div (nth j raw 0) (fold_left add raw zero))
           /\ Forall (fun x => 0 <= x <= 1) (nth i rows [])
           /\ 0 < nth i (nth i rows []) 0.
Proof.
  intro Lf.
  destruct (rows_built fuel (seq 0 (n_cells M)) Lf) as (rows & E & L & R).
  { apply Forall_forall. intros i I. apply in_seq in I. lia. }
  rewrite length_seq in L, R.
  exists rows. split; [exact E|]. split; [exact L|].
  intros i Li. specialize (R i Li). rewrite seq_nth in R by exact Li. cbn [Nat.add] in R.
  destruct (normalized_row fuel i Li Lf) as (raw & Er & Em & S & Len & Q & B & P).
  rewrite Em in R. injection R as R.
  exists raw. rewrite <- R. repeat split; assumption.
Qed.

End FilterMatrix.

Lemma filter_row_entries_witness :
  exists row : Vector Q,
    filter_row Fixture.strip 4 1 = Some row
    /\ length row = 4%nat
    /\ (nth 1 row 0 == 0.251)%Q.
Proof.
  assert (WF : well_formed Fixture.strip).
  { intros c L. cbn in L.
    do 4 (destruct c as [|c]; [cbn; repeat constructor; cbn; lia|]). lia. }
  destruct (filter_row_entries Fixture.strip WF 1 4) as (row & E & L & D & _);
    [cbn; lia | cbn; lia |].
  exists row. split; [exact E|]. split; [exact L | exact D].
Defined.

Lemma filter_matrix_entries_witness :
  exists rows : list (Vector Q),
    setup_filter_matrix Fixture.strip 4 = Some rows
    /\ length rows = 4%nat
    /\ Forall (fun x => 0 <= x <= 1)%Q (nth 1 rows []).
Proof.
  assert (WF : well_formed Fixture.strip).
  { intros c L. cbn in L.
    do 4 (destruct c as [|c]; [cbn; repeat constructor; cbn; lia|]). lia. }
  destruct (filter_matrix_entries Fixture.strip WF 4) as (rows & E & L & R);
    [cbn; lia |].
  exists rows. split; [exact E|]. split; [exact L|].
  destruct (R 1%nat) as (raw & _ & _ & _ & _ & _ & B & _); [cbn; lia | exact B].
Defined.

(** ** The state that is written out *)

Section Output.

Context {F : Type} `{Scalar F}.

Variable C : Collaborators F.

Lemma find_max_step_state (state : BlockVector F) (barrier_size : F) (m : Members F) :
  nonlinear_solution (snd (find_max_step C state barrier_size m)) = state.
Proof.
  rewrite (find_max_step_unfold C state barrier_size m). reflexivity.
Qed.

Lemma uphill_lag (n : nat) :
  forall (k : nat) (watchdog_state : BlockVector F) (barrier_size : F)
         (w : Watchdog F) (m : Members F),
    found_step w = false ->
    let r := uphill C n k watchdog_state barrier_size w m in
    found_step (fst r) = true ->
    current_state (progress (fst r))
    = badd (nonlinear_solution (snd r)) (current_step (progress (fst r))).
Proof.
  induction n as [|n IH]; intros k ws b w m NF r; subst r; cbn [uphill].
  - unfold ret. cbn [fst]. congruence.
  - unfold bind. pose proof (find_max_step_state (current_state (progress w)) b m) as S.
    destruct (find_max_step C (current_state (progress w)) b m) as [step m1].
    cbn [snd] in S. rewrite !calculate_exact_merit_value.
    match goal with |- context [if ?c then _ else _] => destruct c end.
    + unfold ret. cbn [fst snd progress current_state current_step]. intros _.
      rewrite S. reflexivity.
    + apply IH. cbn [found_step]. exact NF.
Qed.

(** X17: after a watchdog cycle [output_results] does not write the current
    state.  It writes [nonlinear_solution], which only [find_max_step]
    assigns: when the speculative loop found a step, the state written is
    one full step behind, the current state being that state plus the
    current step; when it found none, the state written is the state at
    the end of the speculative loop or the stretch state, a scaled step
    from there along the current step. *)
Theorem output_results_lags (barrier_size : F) (p : Progress F) (m : Members F) :
  let w := fst (speculation C barrier_size p m) in
  let p' := fst (watchdog_cycle C barrier_size p m) in
  let m' := snd (watchdog_cycle C barrier_size p m) in
  let written := snd (fst (output_results (iteration_number p') m')) in
  (found_step w = true -> current_state p' = badd written (current_step p'))
  /\ (found_step w = false ->
      written = current_state (progress w)
      \/ exists m2 : Members F,
           written = fst (take_scaled_step C (current_state (progress w)) (current_step p')
                            descent_requirement barrier_size m2)).
Proof.
  cbv zeta. unfold output_results, gets. cbn [fst snd].
  unfold watchdog_cycle, speculation, bind.
  pose proof (uphill_lag max_uphill_steps 0 (current_state p) barrier_size
                (mkWatchdog p [] zero false) m eq_refl) as U.
  cbv zeta in U.
  destruct (uphill C max_uphill_steps 0 (current_state p) barrier_size
              (mkWatchdog p [] zero false) m) as [w m1].
  cbn [fst snd] in U |- *. destruct (found_step w).
  - split; [|discriminate]. intros _. unfold ret. cbn [fst snd]. exact (U eq_refl).
  - split; [discriminate|]. intros _. clear U. unfold backtrack, bind.
    pose proof (find_max_step_state (current_state (progress w)) barrier_size m1) as S.
    destruct (find_max_step C (current_state (progress w)) barrier_size m1) as [step m2].
    cbn [snd] in S.
    pose proof (take_scaled_step_frame C (current_state (progress w)) step
                  descent_requirement barrier_size m2) as T.
    destruct (take_scaled_step C (current_state (progress w)) step descent_requirement
                barrier_size m2) as [stretch_state m3] eqn:E.
    cbn [snd] in T. subst m3. rewrite !calculate_exact_merit_value.
    match goal with |- context [if ?c then _ else _] => destruct c end.
    + left. unfold ret. cbn [fst snd]. exact S.
    + match goal with |- context [if ?c then _ else _] => destruct c end.
      * left.
        pose proof (take_scaled_step_frame C (current_state p) (watchdog_step w)
                      descent_requirement barrier_size m2) as T.
        destruct (take_scaled_step C (current_state p) (watchdog_step w)
                    descent_requirement barrier_size m2) as [state m3].
        cbn [snd] in T. subst m3. unfold ret. cbn [fst snd]. exact S.
      * right. exists m2.
        pose proof (find_max_step_state stretch_state barrier_size m2) as S'.
        destruct (find_max_step C stretch_state barrier_size m2) as [stretch_step m3].
        cbn [snd] in S'.
        pose proof (take_scaled_step_frame C stretch_state stretch_step
                      descent_requirement barrier_size m3) as T.
        destruct (take_scaled_step C stretch_state stretch_step descent_requirement
                    barrier_size m3) as [state m4].
        cbn [snd] in T. subst m4. unfold ret. cbn [fst snd current_step].
        rewrite S', E. reflexivity.
Qed.

End Output.

Lemma output_results_lags_witness :
  let p := mkProgress (Fixture.uniform 1%Q) [] 0%N in
  let m := Fixture.fresh (Fixture.uniform 1%Q) in
  let p' := fst (watchdog_cycle Fixture.diagonal 25%Q p m) in
  let m' := snd (watchdog_cycle Fixture.diagonal 25%Q p m) in
  found_step (fst (speculation Fixture.diagonal 25%Q p m)) = true
  /\ current_state p'
     = badd (snd (fst (output_results (iteration_number p') m'))) (current_step p').
Proof.
  intros p m p' m'.
  assert (Found : found_step (fst (speculation Fixture.diagonal 25%Q p m)) = true)
    by (vm_compute; reflexivity).
  split; [exact Found|].
  destruct (output_results_lags Fixture.diagonal 25%Q p m) as (L & _).
  exact (L Found).
Defined.
